(** * Minesweeper knowledge-base engine (minesweeper.py)

    A shallow embedding of the classes [Minesweeper], [Sentence] and
    [MinesweeperAI] of [minesweeper.py], followed by the properties of the
    inference engine.

    Modelling choices.
    - A cell is a Python tuple of two ints: a pair of [Z].
    - A Python [set] of cells is a [gset (Z * Z)]; iterating over a set
      walks [elements].  Every loop over a set in the source only adds to
      sets or removes from them, so the outcome does not depend on the
      iteration order (see [neighbour_marks_spec], [mark_mines_perm]).
    - A [Sentence] is a mutable object; every sentence held in
      [knowledge] is created by a fresh constructor call and is referenced
      from that list only, so [knowledge] is a list of sentence values and
      mutation in place is a map over that list.  The one place where
      sharing matters, the constructor's copy, is modelled with an explicit
      store of objects in the module [Heap].
    - [random.choice] draws an index; the draw is an explicit argument.
      The constructor of [Minesweeper] draws its cells with
      [random.randrange]; the module [Placement] runs its loop on an
      explicit list of draws and says whether it has returned, raised or is
      still looping when the list is used up.
    - [Minesweeper.print] writes text; the module [Printing] gives the
      lines it writes. *)

From stdpp Require Import gmap list.
From Stdlib Require Import ZArith Ascii.
Local Open Scope Z_scope.

Abbreviation cell := (Z * Z)%type.

(** ** The board: class [Minesweeper] *)

Module Minesweeper.

(** [board[i][j]] is [True] exactly for the cells of [mines]: the
    constructor sets both together and nothing else writes to them. *)
Record t := Build {
  height : Z;
  width : Z;
  mines : gset cell;
  mines_found : gset cell
}.

Definition is_mine (b : t) (c : cell) : bool := bool_decide (c ∈ mines b).

(** The two nested [range] loops of [nearby_mines], with the [continue]
    for the cell itself and the bounds test. *)
Definition nearby_mines (b : t) (c : cell) : Z :=
  foldl (fun cnt i =>
    foldl (fun cnt j =>
      if bool_decide ((i, j) = c) then cnt
      else if bool_decide (0 <= i < height b ∧ 0 <= j < width b)
           then (if is_mine b (i, j) then cnt + 1 else cnt)
           else cnt)
      cnt (seqZ (c.2 - 1) 3))
    0 (seqZ (c.1 - 1) 3).

Definition won (b : t) : bool := bool_decide (mines_found b = mines b).

End Minesweeper.

(** ** Statements: class [Sentence] *)

Module Sentence.

Record t := Build {
  cells : gset cell;
  count : Z
}.

#[global] Instance eq_dec : EqDecision t.
Proof. solve_decision. Defined.

(** [__init__]: [set(cells)] builds a new set from any iterable; the
    callers in this file pass a list or a set. *)
Definition init (cs : list cell) (n : Z) : t :=
  {| cells := list_to_set cs; count := n |}.

Definition init_set (cs : gset cell) (n : Z) : t :=
  {| cells := cs; count := n |}.

(** [__eq__] *)
Definition eqb (a b : t) : bool :=
  bool_decide (cells a = cells b) && bool_decide (count a = count b).

(** [None] is the "no conclusion" result. *)
Definition known_mines (s : t) : option (gset cell) :=
  if bool_decide (Z.of_nat (size (cells s)) = count s) then Some (cells s)
  else None.

Definition known_safes (s : t) : option (gset cell) :=
  if bool_decide (size (cells s) = 0%nat) then Some (cells s)
  else None.

Definition mark_mine (s : t) (c : cell) : t :=
  if bool_decide (c ∈ cells s)
  then {| cells := cells s ∖ {[c]}; count := count s - 1 |}
  else s.

Definition mark_safe (s : t) (c : cell) : t :=
  if bool_decide (c ∈ cells s)
  then {| cells := cells s ∖ {[c]}; count := count s |}
  else s.

End Sentence.

(** ** The player: class [MinesweeperAI] *)

Module MinesweeperAI.

Record t := Build {
  height : Z;
  width : Z;
  moves_made : gset cell;
  mines : gset cell;
  safes : gset cell;
  knowledge : list Sentence.t
}.

(** [__init__] *)
Definition init (h w : Z) : t :=
  {| height := h; width := w; moves_made := ∅; mines := ∅; safes := ∅;
     knowledge := [] |}.

Definition mark_mine (ai : t) (c : cell) : t :=
  {| height := height ai; width := width ai;
     moves_made := moves_made ai;
     mines := {[c]} ∪ mines ai;
     safes := safes ai;
     knowledge := (fun s => Sentence.mark_mine s c) <$> knowledge ai |}.

Definition mark_safe (ai : t) (c : cell) : t :=
  {| height := height ai; width := width ai;
     moves_made := moves_made ai;
     mines := mines ai;
     safes := {[c]} ∪ safes ai;
     knowledge := (fun s => Sentence.mark_safe s c) <$> knowledge ai |}.

(** The [if]/[elif] chain that fills the list [neighbours]. *)
Definition neighbours (h w : Z) (c : cell) : list cell :=
  let r := c.1 in
  let k := c.2 in
  if bool_decide (r = 0 ∧ k = 0) then
    [(0, 1); (1, 0); (1, 1)]
  else if bool_decide (r = 0 ∧ k = w - 1) then
    [(0, 6); (1, 6); (1, 7)]
  else if bool_decide (r = h - 1 ∧ k = 0) then
    [(6, 0); (6, 1); (7, 1)]
  else if bool_decide (r = h - 1 ∧ k = w - 1) then
    [(6, 6); (6, 7); (7, 6)]
  else if bool_decide (r >= 1 ∧ r <= h - 2 ∧ k = 0) then
    [(r - 1, 0); (r - 1, 1); (r, 1); (r + 1, 0); (r + 1, 1)]
  else if bool_decide (r >= 1 ∧ r <= h - 2 ∧ k = w - 1) then
    [(r - 1, 6); (r - 1, 7); (r, 6); (r + 1, 6); (r + 1, 7)]
  else if bool_decide (r = 0 ∧ k >= 1 ∧ k <= w - 2) then
    [(0, k - 1); (0, k + 1); (1, k - 1); (1, k); (1, k + 1)]
  else if bool_decide (r = h - 1 ∧ k >= 1 ∧ k <= w - 2) then
    [(6, k - 1); (6, k); (6, k + 1); (7, k - 1); (7, k + 1)]
  else
    [(r - 1, k - 1); (r - 1, k); (r - 1, k + 1);
     (r, k - 1); (r, k + 1);
     (r + 1, k - 1); (r + 1, k); (r + 1, k + 1)].

(** Steps 1 and 2 of [add_knowledge]: record the move, mark it safe. *)
Definition record_move (ai : t) (c : cell) : t :=
  mark_safe
    {| height := height ai; width := width ai;
       moves_made := {[c]} ∪ moves_made ai;
       mines := mines ai; safes := safes ai;
       knowledge := knowledge ai |} c.

(** The sentence built from the list of neighbours. *)
Definition new_sentence (ai : t) (c : cell) (n : Z) : Sentence.t :=
  Sentence.init (neighbours (height ai) (width ai) c) n.

(** One round of the loop [for c in sentence.cells]: the tests read the
    current [mines] and [safes]. *)
Definition neighbour_mark (obs : cell) (ai : t) (c : cell) : t :=
  if bool_decide (obs ∈ mines ai) then mark_mine ai c
  else if bool_decide (obs ∈ safes ai) then mark_safe ai c
  else ai.

Definition neighbour_marks (ai : t) (obs : cell) (s : Sentence.t) : t :=
  foldl (neighbour_mark obs) ai (elements (Sentence.cells s)).

Definition append (ai : t) (ss : list Sentence.t) : t :=
  {| height := height ai; width := width ai;
     moves_made := moves_made ai; mines := mines ai; safes := safes ai;
     knowledge := knowledge ai ++ ss |}.

(** The loop under [#Check subsets.]: one difference per sentence of
    [knowledge], the new sentence included. *)
Definition differences (kn : list Sentence.t) (s : Sentence.t)
  : list Sentence.t :=
  (fun x => Sentence.init_set (Sentence.cells x ∖ Sentence.cells s)
                              (Sentence.count x - Sentence.count s))
    <$> kn.

Definition check_subsets (ai : t) (s : Sentence.t) : t :=
  append ai (differences (knowledge ai) s).

(** The two lists [mines] and [safes] gathered from [knowledge]. *)
Definition gather (f : Sentence.t -> option (gset cell))
    (kn : list Sentence.t) : list cell :=
  kn ≫= (fun s => match f s with
                   | Some cs => elements cs
                   | None => []
                   end).

Definition conclude (ai : t) : t :=
  let ms := gather Sentence.known_mines (knowledge ai) in
  let ss := gather Sentence.known_safes (knowledge ai) in
  foldl mark_safe (foldl mark_mine ai ms) ss.

(** The state in which the new sentence is appended to [knowledge]. *)
Definition observe (ai : t) (c : cell) (n : Z) : t :=
  let ai2 := record_move ai c in
  let s := new_sentence ai c n in
  append (neighbour_marks ai2 c s) [s].

Definition add_knowledge (ai : t) (c : cell) (n : Z) : t :=
  conclude (check_subsets (observe ai c n) (new_sentence ai c n)).

(** Early return from two nested loops. *)
Definition first_of {A B} (f : A -> option B) (l : list A) : option B :=
  foldr (fun x rest => match f x with
                       | Some y => Some y
                       | None => rest
                       end) None l.

(** Both queries are paired with the state the call leaves behind. *)
Definition make_safe_move (ai : t) : option cell * t :=
  (first_of (fun i =>
     first_of (fun j =>
       if bool_decide ((i, j) ∉ moves_made ai)
          && bool_decide ((i, j) ∈ safes ai)
       then Some (i, j) else None)
       (seqZ 0 (width ai)))
     (seqZ 0 (height ai)),
   ai).

(** The set comprehension of [make_random_move]. *)
Definition board_cells (h w : Z) : gset cell :=
  list_to_set (i ← seqZ 0 h; j ← seqZ 0 w; [(i, j)]).

Inductive error := IndexError.

(** [random.choice]: [IndexError] on an empty sequence, otherwise the
    element at the drawn index, which is below the length. *)
Definition choice {A} (draw : nat) (l : list A) : error + A :=
  match l !! (draw `mod` length l)%nat with
  | Some x => inr x
  | None => inl IndexError
  end.

Definition candidates (ai : t) : gset cell :=
  board_cells (height ai) (width ai) ∖ moves_made ai ∖ mines ai.

Definition make_random_move (draw : nat) (ai : t) : (error + cell) * t :=
  (choice draw (elements (candidates ai)), ai).

End MinesweeperAI.

(** ** The constructor's copy, with sharing made explicit *)

Module Heap.

(** The objects that can hold cells: a [list] or a [set]. *)
Inductive obj :=
| OList (l : list cell)
| OSet (s : gset cell).

Definition to_set (o : obj) : gset cell :=
  match o with
  | OList l => list_to_set l
  | OSet s => s
  end.

(** A sentence object holds a reference to its set of cells. *)
Record sentence := Build {
  cells_ref : nat;
  count : Z
}.

Definition alloc (st : gmap nat obj) (o : obj) : gmap nat obj * nat :=
  let l := fresh (dom st) in (<[l := o]> st, l).

(** [Sentence(cells, count)] with [cells] the object at [src]:
    [set(cells)] allocates a new set. *)
Definition init (st : gmap nat obj) (src : nat) (n : Z)
  : option (gmap nat obj * sentence) :=
  o ← st !! src;
  let '(st', l) := alloc st (OSet (to_set o)) in
  Some (st', {| cells_ref := l; count := n |}).

Definition cells (st : gmap nat obj) (s : sentence) : gset cell :=
  from_option to_set ∅ (st !! cells_ref s).

(** [self.cells.remove(cell)] writes to the object [self.cells] refers
    to. *)
Definition mark_mine (st : gmap nat obj) (s : sentence) (c : cell)
  : gmap nat obj * sentence :=
  if bool_decide (c ∈ cells st s)
  then (<[cells_ref s := OSet (cells st s ∖ {[c]})]> st,
        {| cells_ref := cells_ref s; count := count s - 1 |})
  else (st, s).

Definition mark_safe (st : gmap nat obj) (s : sentence) (c : cell)
  : gmap nat obj * sentence :=
  if bool_decide (c ∈ cells st s)
  then (<[cells_ref s := OSet (cells st s ∖ {[c]})]> st, s)
  else (st, s).

Inductive mark := Mine (c : cell) | Safe (c : cell).

Definition apply_mark (p : gmap nat obj * sentence) (m : mark)
  : gmap nat obj * sentence :=
  match m with
  | Mine c => mark_mine p.1 p.2 c
  | Safe c => mark_safe p.1 p.2 c
  end.

Definition apply_marks (st : gmap nat obj) (s : sentence) (ms : list mark)
  : gmap nat obj * sentence :=
  foldl apply_mark (st, s) ms.

End Heap.

(** ** Laying the mines: [Minesweeper.__init__] *)

Module Placement.

Inductive error := ValueError | IndexError.

(** The object under construction: the fields of [Minesweeper.t] and the
    list of rows [board]. *)
Record t := Build {
  game : Minesweeper.t;
  board : list (list bool)
}.

(** The two loops that fill [board] with [False]. *)
Definition empty_board (h w : Z) : list (list bool) :=
  (fun _ => (fun _ => false) <$> seqZ 0 w) <$> seqZ 0 h.

(** [board[i][j]] for indices that are not negative. *)
Definition get (bd : list (list bool)) (i j : nat) : option bool :=
  bd !! i ≫= (.!! j).

(** A draw is the pair of numbers the two calls of [random.randrange]
    return. *)
Definition cell_of (d : nat * nat) : cell := (Z.of_nat d.1, Z.of_nat d.2).

(** One round of the [while] loop.  [randrange] raises [ValueError] on an
    empty range; an index outside the list raises [IndexError]. *)
Definition place (h w : Z) (d : nat * nat)
    (st : gset cell * list (list bool))
  : error + gset cell * list (list bool) :=
  if bool_decide (h <= 0) then inl ValueError
  else if bool_decide (w <= 0) then inl ValueError
  else match get st.2 d.1 d.2 with
       | None => inl IndexError
       | Some true => inr st
       | Some false =>
           inr ({[cell_of d]} ∪ st.1, alter (<[d.2 := true]>) d.1 st.2)
       end.

(** How far the constructor gets on a given list of draws: it returns, it
    raises, or the loop has used up the draws and goes on. *)
Inductive outcome :=
| Returned (b : t)
| Raised (e : error)
| Looping.

Fixpoint loop (h w target : Z) (draws : list (nat * nat))
    (st : gset cell * list (list bool)) : outcome :=
  if bool_decide (Z.of_nat (size st.1) = target)
  then Returned {| game := {| Minesweeper.height := h;
                              Minesweeper.width := w;
                              Minesweeper.mines := st.1;
                              Minesweeper.mines_found := ∅ |};
                   board := st.2 |}
  else match draws with
       | [] => Looping
       | d :: rest =>
           match place h w d st with
           | inl e => Raised e
           | inr st' => loop h w target rest st'
           end
       end.

Definition init (h w target : Z) (draws : list (nat * nat)) : outcome :=
  loop h w target draws (∅, empty_board h w).

End Placement.

(** ** Showing the board: [Minesweeper.print] *)

Module Printing.

(** ["--" * width + "-"]; a string times a negative number is empty. *)
Definition rule (w : Z) : list ascii :=
  (_ ← replicate (Z.to_nat w) (); ["-"; "-"]%char) ++ ["-"%char].

(** The text written for row [i] before the line ends. *)
Definition row (b : Minesweeper.t) (i : Z) : list ascii :=
  (j ← seqZ 0 (Minesweeper.width b);
   if Minesweeper.is_mine b (i, j) then ["|"; "X"]%char else ["|"; " "]%char)
  ++ ["|"%char].

(** The lines written to the standard output: every call of [print]
    without [end] closes a line. *)
Definition print (b : Minesweeper.t) : list (list ascii) :=
  (i ← seqZ 0 (Minesweeper.height b); [rule (Minesweeper.width b); row b i])
  ++ [rule (Minesweeper.width b)].

End Printing.

(** ** Vocabulary of the properties *)

Definition in_board (h w : Z) (c : cell) : Prop :=
  0 <= c.1 < h ∧ 0 <= c.2 < w.

(** The cells within one row and one column of [c], without [c] itself,
    inside an [h] by [w] board: the two loops and the two tests of
    [Minesweeper.nearby_mines]. *)
Definition grid_neighbours (h w : Z) (c : cell) : gset cell :=
  list_to_set
    (filter (fun p => p ≠ c ∧ in_board h w p)
            (i ← seqZ (c.1 - 1) 3; j ← seqZ (c.2 - 1) 3; [(i, j)])).

(** Position of a cell in row-major order on a board of width [w]. *)
Definition index (w : Z) (c : cell) : Z := c.1 * w + c.2.

(** A statement about [k] cells can count between [0] and [k] mines. *)
Definition count_in_range (s : Sentence.t) : Prop :=
  0 <= Sentence.count s <= Z.of_nat (size (Sentence.cells s)).

(** Cells of a statement beyond its count: [mark_mine] keeps it. *)
Definition slack (s : Sentence.t) : Z :=
  Z.of_nat (size (Sentence.cells s)) - Sentence.count s.

(** A statement is true of a layout of mines when its count is the number
    of mines among its cells. *)
Definition holds (M : gset cell) (s : Sentence.t) : Prop :=
  Sentence.count s = Z.of_nat (size (Sentence.cells s ∩ M)).

(** What the board answers when the driver picks [c]. *)
Definition observation (b : Minesweeper.t) (c : cell) : cell * Z :=
  (c, Minesweeper.nearby_mines b c).

Definition valid_move (b : Minesweeper.t) (c : cell) : Prop :=
  in_board (Minesweeper.height b) (Minesweeper.width b) c
  ∧ Minesweeper.is_mine b c = false.

(** The driver feeding a sequence of observations to the player. *)
Definition play (ai : MinesweeperAI.t) (obs : list (cell * Z))
  : MinesweeperAI.t :=
  foldl (fun a o => MinesweeperAI.add_knowledge a o.1 o.2) ai obs.

(** The subset rule in the words of the specification (section 4.3, step
    6): for two distinct statements [a], [b] of [kn] with the cells of [a] a
    non-empty subset of the cells of [b], the statement about the remaining
    cells; kept when it has cells and is not in [kn] yet. *)
Definition spec_subset_candidates (kn : list Sentence.t) : list Sentence.t :=
  a ← kn; b ← kn;
  let c := Sentence.init_set (Sentence.cells b ∖ Sentence.cells a)
                             (Sentence.count b - Sentence.count a) in
  if bool_decide (a ≠ b ∧ Sentence.cells a ≠ ∅
                  ∧ Sentence.cells a ⊆ Sentence.cells b
                  ∧ Sentence.cells c ≠ ∅ ∧ c ∉ kn)
  then [c] else [].

(** A knowledge base on which one more round yields nothing: every cell
    that [known_mines] or [known_safes] reports is recorded already, and the
    subset rule has no statement to add. *)
Definition saturated (ai : MinesweeperAI.t) : Prop :=
  (∀ c, c ∈ MinesweeperAI.gather Sentence.known_mines
              (MinesweeperAI.knowledge ai) → c ∈ MinesweeperAI.mines ai)
  ∧ (∀ c, c ∈ MinesweeperAI.gather Sentence.known_safes
                (MinesweeperAI.knowledge ai) → c ∈ MinesweeperAI.safes ai)
  ∧ spec_subset_candidates (MinesweeperAI.knowledge ai) = [].

(** [known_safes] in the words of the specification (section 4.1): the
    cells of the statement when its count is 0, no conclusion otherwise. *)
Definition spec_known_safes (s : Sentence.t) : option (gset cell) :=
  if bool_decide (Sentence.count s = 0) then Some (Sentence.cells s)
  else None.

(** The fixed point of the specification (section 4.3, step 7): as
    [saturated], with the safe cells read off the statements by
    [spec_known_safes].  [known_mines] is the same in the specification and
    in the code. *)
Definition spec_saturated (ai : MinesweeperAI.t) : Prop :=
  (∀ c, c ∈ MinesweeperAI.gather Sentence.known_mines
              (MinesweeperAI.knowledge ai) → c ∈ MinesweeperAI.mines ai)
  ∧ (∀ c, c ∈ MinesweeperAI.gather spec_known_safes
                (MinesweeperAI.knowledge ai) → c ∈ MinesweeperAI.safes ai)
  ∧ spec_subset_candidates (MinesweeperAI.knowledge ai) = [].

(** *** Concrete boards and players used below *)

Definition board8 (ms : list cell) : Minesweeper.t :=
  {| Minesweeper.height := 8; Minesweeper.width := 8;
     Minesweeper.mines := list_to_set ms; Minesweeper.mines_found := ∅ |}.

(** [{a,b,c} = 1] and [{a,b,c,d,e} = 2] in the middle of the board. *)
Definition stmt_abc : Sentence.t :=
  Sentence.init [(4, 4); (4, 5); (4, 6)] 1.

Definition stmt_abcde : Sentence.t :=
  Sentence.init [(4, 4); (4, 5); (4, 6); (5, 4); (5, 5)] 2.

Definition stmt_de : Sentence.t := Sentence.init [(5, 4); (5, 5)] 1.

Definition ai_abc_abcde : MinesweeperAI.t :=
  {| MinesweeperAI.height := 8; MinesweeperAI.width := 8;
     MinesweeperAI.moves_made := ∅; MinesweeperAI.mines := ∅;
     MinesweeperAI.safes := ∅;
     MinesweeperAI.knowledge := [stmt_abc; stmt_abcde] |}.

(** A one-cell board whose only cell has been played. *)
Definition ai_board_played : MinesweeperAI.t :=
  MinesweeperAI.add_knowledge (MinesweeperAI.init 1 1) (0, 0) 0.

(** A store holding one list of cells at address 0. *)
Definition store_example : gmap nat Heap.obj :=
  {[ 0%nat := Heap.OList [(0, 1); (1, 0); (1, 1)] ]}.

(** The states a driver can bring a new player into with the three methods
    that write to it. *)
Inductive reachable (h w : Z) : MinesweeperAI.t → Prop :=
| reachable_init : reachable h w (MinesweeperAI.init h w)
| reachable_add_knowledge ai c n :
    reachable h w ai → reachable h w (MinesweeperAI.add_knowledge ai c n)
| reachable_mark_mine ai c :
    reachable h w ai → reachable h w (MinesweeperAI.mark_mine ai c)
| reachable_mark_safe ai c :
    reachable h w ai → reachable h w (MinesweeperAI.mark_safe ai c).

(** Every cell a statement mentions is recorded as safe or as a mine. *)
Definition cells_recorded (ai : MinesweeperAI.t) : Prop :=
  ∀ s, s ∈ MinesweeperAI.knowledge ai →
       Sentence.cells s ⊆ MinesweeperAI.safes ai ∪ MinesweeperAI.mines ai.

(** Any two statements are about the same cells or about disjoint cells. *)
Definition same_or_apart (kn : list Sentence.t) : Prop :=
  ∀ s1 s2, s1 ∈ kn → s2 ∈ kn →
           Sentence.cells s1 = Sentence.cells s2
           ∨ Sentence.cells s1 ## Sentence.cells s2.

(** The nine cells the loops of [nearby_mines] visit, in their order. *)
Definition square (c : cell) : list cell :=
  i ← seqZ (c.1 - 1) 3; j ← seqZ (c.2 - 1) 3; [(i, j)].

(** The board list and the set of mines say the same, and both stay inside
    the board. *)
Definition board_agrees (h w : Z) (st : gset cell * list (list bool)) : Prop :=
  (∀ i j, (i < Z.to_nat h)%nat → (j < Z.to_nat w)%nat →
          Placement.get st.2 i j
          = Some (bool_decide (Placement.cell_of (i, j) ∈ st.1)))
  ∧ (∀ i j, is_Some (Placement.get st.2 i j) →
            (i < Z.to_nat h)%nat ∧ (j < Z.to_nat w)%nat)
  ∧ (∀ c, c ∈ st.1 → in_board h w c).

(** * Properties *)

#[local] Set Warnings "-clear-no-such-hyp".

(** ** Marking cells in statements and in the knowledge base *)

Lemma sentence_eq (s : Sentence.t) (cs : gset cell) (n : Z) :
  Sentence.cells s = cs → Sentence.count s = n →
  s = {| Sentence.cells := cs; Sentence.count := n |}.
Proof. destruct s; simpl; congruence. Qed.

Lemma size_inter_cons (X L : gset cell) (c : cell) :
  c ∈ X →
  size (X ∩ ({[c]} ∪ L)) = S (size ((X ∖ {[c]}) ∩ L)).
Proof.
  intros Hc.
  replace (X ∩ ({[c]} ∪ L)) with ({[c]} ∪ (X ∖ {[c]}) ∩ L).
  - rewrite size_union; [|set_solver]. by rewrite size_singleton.
  - apply set_eq. intros x. destruct (decide (x = c)); set_solver.
Qed.

Lemma mark_mines_spec (l : list cell) (s : Sentence.t) :
  foldl Sentence.mark_mine s l =
  {| Sentence.cells := Sentence.cells s ∖ list_to_set l;
     Sentence.count :=
       Sentence.count s
       - Z.of_nat (size (Sentence.cells s ∩ list_to_set l)) |}.
Proof.
  revert s. induction l as [|c l IH]; intros s.
  - apply sentence_eq; simpl.
    + set_solver.
    + replace (Sentence.cells s ∩ ∅) with (∅ : gset cell) by set_solver.
      rewrite size_empty. lia.
  - cbn [foldl]. rewrite IH. unfold Sentence.mark_mine.
    case_bool_decide as Hc; cbn [Sentence.cells Sentence.count list_to_set].
    + f_equal; [set_solver|]. rewrite (size_inter_cons _ _ c); [lia|done].
    + f_equal; [set_solver|].
      replace (Sentence.cells s ∩ ({[c]} ∪ list_to_set l))
        with (Sentence.cells s ∩ list_to_set l) by set_solver.
      done.
Qed.

Lemma mark_safes_spec (l : list cell) (s : Sentence.t) :
  foldl Sentence.mark_safe s l =
  {| Sentence.cells := Sentence.cells s ∖ list_to_set l;
     Sentence.count := Sentence.count s |}.
Proof.
  revert s. induction l as [|c l IH]; intros s.
  - apply sentence_eq; simpl; [set_solver|done].
  - cbn [foldl]. rewrite IH. unfold Sentence.mark_safe.
    case_bool_decide as Hc; cbn [Sentence.cells Sentence.count list_to_set];
      f_equal; set_solver.
Qed.

Lemma mark_mines_slack (l : list cell) (s : Sentence.t) :
  slack (foldl Sentence.mark_mine s l) = slack s.
Proof.
  rewrite mark_mines_spec. unfold slack. cbn [Sentence.cells Sentence.count].
  rewrite size_difference_alt.
  assert (size (Sentence.cells s ∩ list_to_set l) ≤ size (Sentence.cells s))%nat
    by (apply subseteq_size; set_solver).
  lia.
Qed.

Lemma ai_mark_mines_spec (l : list cell) (ai : MinesweeperAI.t) :
  foldl MinesweeperAI.mark_mine ai l =
  {| MinesweeperAI.height := MinesweeperAI.height ai;
     MinesweeperAI.width := MinesweeperAI.width ai;
     MinesweeperAI.moves_made := MinesweeperAI.moves_made ai;
     MinesweeperAI.mines := list_to_set l ∪ MinesweeperAI.mines ai;
     MinesweeperAI.safes := MinesweeperAI.safes ai;
     MinesweeperAI.knowledge :=
       (fun s => foldl Sentence.mark_mine s l) <$> MinesweeperAI.knowledge ai |}.
Proof.
  revert ai. induction l as [|c l IH]; intros ai.
  - destruct ai; cbn. f_equal; [set_solver|]. by rewrite list_fmap_id.
  - cbn [foldl]. rewrite IH. unfold MinesweeperAI.mark_mine.
    cbn [MinesweeperAI.height MinesweeperAI.width MinesweeperAI.moves_made
         MinesweeperAI.mines MinesweeperAI.safes MinesweeperAI.knowledge
         list_to_set].
    f_equal; [set_solver|]. by rewrite <- list_fmap_compose.
Qed.

Lemma ai_mark_safes_spec (l : list cell) (ai : MinesweeperAI.t) :
  foldl MinesweeperAI.mark_safe ai l =
  {| MinesweeperAI.height := MinesweeperAI.height ai;
     MinesweeperAI.width := MinesweeperAI.width ai;
     MinesweeperAI.moves_made := MinesweeperAI.moves_made ai;
     MinesweeperAI.mines := MinesweeperAI.mines ai;
     MinesweeperAI.safes := list_to_set l ∪ MinesweeperAI.safes ai;
     MinesweeperAI.knowledge :=
       (fun s => foldl Sentence.mark_safe s l) <$> MinesweeperAI.knowledge ai |}.
Proof.
  revert ai. induction l as [|c l IH]; intros ai.
  - destruct ai; cbn. f_equal; [set_solver|]. by rewrite list_fmap_id.
  - cbn [foldl]. rewrite IH. unfold MinesweeperAI.mark_safe.
    cbn [MinesweeperAI.height MinesweeperAI.width MinesweeperAI.moves_made
         MinesweeperAI.mines MinesweeperAI.safes MinesweeperAI.knowledge
         list_to_set].
    f_equal; [set_solver|]. by rewrite <- list_fmap_compose.
Qed.

(** Marking a list of cells depends on the set of its elements only, not
    on the order in which a Python set hands them out. *)
Lemma mark_mines_perm (l l' : list cell) (ai : MinesweeperAI.t) :
  (∀ x, x ∈ l ↔ x ∈ l') →
  foldl MinesweeperAI.mark_mine ai l = foldl MinesweeperAI.mark_mine ai l'.
Proof.
  intros Hll'. rewrite !ai_mark_mines_spec.
  assert (list_to_set l = (list_to_set l' : gset cell)) as Hset by set_solver.
  rewrite Hset. f_equal. apply list_fmap_ext. intros _ s _.
  by rewrite !mark_mines_spec, Hset.
Qed.

(** ** Gathering certain cells *)

Lemma gather_nil (f : Sentence.t → option (gset cell)) (kn : list Sentence.t) :
  (∀ s cs, s ∈ kn → f s = Some cs → cs = ∅) →
  MinesweeperAI.gather f kn = [].
Proof.
  unfold MinesweeperAI.gather. induction kn as [|s kn IH]; intros H; [done|].
  cbn. rewrite IH.
  - destruct (f s) as [cs|] eqn:Hf; [|done].
    rewrite (H s cs); [by rewrite elements_empty|by left|done].
  - intros s' cs' Hs'. apply H. by right.
Qed.

Lemma elem_of_gather (f : Sentence.t → option (gset cell))
    (kn : list Sentence.t) (s : Sentence.t) (cs : gset cell) (x : cell) :
  s ∈ kn → f s = Some cs → x ∈ cs → x ∈ MinesweeperAI.gather f kn.
Proof.
  intros Hs Hf Hx. unfold MinesweeperAI.gather.
  apply list_elem_of_bind. exists s. split; [|done].
  rewrite Hf. by apply elem_of_elements.
Qed.

Lemma known_safes_Some (s : Sentence.t) (cs : gset cell) :
  Sentence.known_safes s = Some cs → cs = ∅.
Proof.
  unfold Sentence.known_safes. case_bool_decide as Hsz; [|done].
  intros [= <-]. by apply size_empty_iff, leibniz_equiv in Hsz.
Qed.

Lemma known_mines_Some (s : Sentence.t) (cs : gset cell) :
  Sentence.known_mines s = Some cs ↔ cs = Sentence.cells s ∧ slack s = 0.
Proof.
  unfold Sentence.known_mines, slack. case_bool_decide as Hsz.
  - split; [intros [= <-]; split; [done|lia] | by intros [-> _]].
  - split; [done | intros [_ ?]; lia].
Qed.

Lemma gather_known_safes (kn : list Sentence.t) :
  MinesweeperAI.gather Sentence.known_safes kn = [].
Proof. apply gather_nil. intros s cs _. apply known_safes_Some. Qed.

Lemma conclude_mines (ai : MinesweeperAI.t) :
  MinesweeperAI.conclude ai =
  foldl MinesweeperAI.mark_mine ai
    (MinesweeperAI.gather Sentence.known_mines (MinesweeperAI.knowledge ai)).
Proof. unfold MinesweeperAI.conclude. by rewrite gather_known_safes. Qed.

Lemma gather_known_mines_conclude (ai : MinesweeperAI.t) :
  MinesweeperAI.gather Sentence.known_mines
    (MinesweeperAI.knowledge (MinesweeperAI.conclude ai)) = [].
Proof.
  rewrite conclude_mines, ai_mark_mines_spec. cbn [MinesweeperAI.knowledge].
  set (ms := MinesweeperAI.gather _ _).
  apply gather_nil. intros s' cs (s & -> & Hs)%list_elem_of_fmap Hk.
  apply known_mines_Some in Hk as [-> Hk].
  rewrite mark_mines_slack in Hk.
  rewrite mark_mines_spec. cbn [Sentence.cells].
  apply set_eq. intros x. split; [|set_solver].
  intros [Hx Hnx]%elem_of_difference. exfalso. apply Hnx.
  apply elem_of_list_to_set.
  apply (elem_of_gather _ _ s (Sentence.cells s)); [done| |done].
  by apply known_mines_Some.
Qed.

Lemma conclude_idem (ai : MinesweeperAI.t) :
  MinesweeperAI.conclude (MinesweeperAI.conclude ai) = MinesweeperAI.conclude ai.
Proof.
  rewrite (conclude_mines (MinesweeperAI.conclude ai)).
  by rewrite gather_known_mines_conclude.
Qed.

Lemma neighbour_marks_fold (obs : cell) (l : list cell) (ai : MinesweeperAI.t) :
  obs ∈ MinesweeperAI.safes ai →
  foldl (MinesweeperAI.neighbour_mark obs) ai l =
  if bool_decide (obs ∈ MinesweeperAI.mines ai)
  then foldl MinesweeperAI.mark_mine ai l
  else foldl MinesweeperAI.mark_safe ai l.
Proof.
  revert ai. induction l as [|c l IH]; intros ai Hs; cbn [foldl].
  - by case_bool_decide.
  - unfold MinesweeperAI.neighbour_mark at 2.
    case_bool_decide as Hm.
    + rewrite IH; [|done]. rewrite bool_decide_eq_true_2; [done|].
      cbn. set_solver.
    + rewrite bool_decide_eq_true_2 by done.
      rewrite IH; [|cbn; set_solver]. by rewrite bool_decide_eq_false_2.
Qed.

(** The loop over the new sentence's cells marks every one of them, as a
    mine when the observed cell is recorded as a mine and as safe otherwise,
    whatever the order of iteration. *)
Lemma neighbour_marks_spec (ai : MinesweeperAI.t) (c : cell) (s : Sentence.t) :
  let ai2 := MinesweeperAI.record_move ai c in
  MinesweeperAI.neighbour_marks ai2 c s =
  if bool_decide (c ∈ MinesweeperAI.mines ai)
  then foldl MinesweeperAI.mark_mine ai2 (elements (Sentence.cells s))
  else foldl MinesweeperAI.mark_safe ai2 (elements (Sentence.cells s)).
Proof.
  cbv zeta. unfold MinesweeperAI.neighbour_marks.
  rewrite neighbour_marks_fold; [done|]. cbn. set_solver.
Qed.

(** ** Scanning the board *)

Section first_of.
Context {A B : Type} (f : A → option B).

Lemma first_of_inv (l : list A) :
  match MinesweeperAI.first_of f l with
  | Some y => ∃ (i : nat) x, l !! i = Some x ∧ f x = Some y
               ∧ ∀ (j : nat) x', (j < i)%nat → l !! j = Some x' → f x' = None
  | None => ∀ x, x ∈ l → f x = None
  end.
Proof.
  induction l as [|a l IH]; simpl.
  - intros x Hx. by apply elem_of_nil in Hx.
  - destruct (f a) as [y|] eqn:Hfa.
    + exists 0%nat, a. repeat split; [done|]. intros j x' Hj. lia.
    + destruct (MinesweeperAI.first_of f l) as [y|].
      * destruct IH as (i & x & Hi & Hx & Hlt).
        exists (S i), x. repeat split; [done..|].
        intros [|j] x' Hj Hl; simpl in Hl; [by simplify_eq|].
        apply (Hlt j); [lia|done].
      * intros x [->|Hx]%elem_of_cons; [done|by apply IH].
Qed.
End first_of.

Lemma first_of_range {B} (f : Z → option B) (n : Z) :
  match MinesweeperAI.first_of f (seqZ 0 n) with
  | Some y => ∃ i, 0 <= i < n ∧ f i = Some y ∧ ∀ j, 0 <= j < i → f j = None
  | None => ∀ i, 0 <= i < n → f i = None
  end.
Proof.
  pose proof (first_of_inv f (seqZ 0 n)) as H.
  destruct (MinesweeperAI.first_of f (seqZ 0 n)) as [y|].
  - destruct H as (i & x & Hi & Hx & Hlt).
    apply lookup_seqZ in Hi as [-> Hi].
    exists (0 + Z.of_nat i). repeat split; [lia|lia|done|].
    intros j Hj. apply (Hlt (Z.to_nat j) j); [lia|].
    apply lookup_seqZ. lia.
  - intros i Hi. apply H, elem_of_seqZ. lia.
Qed.


Lemma elem_of_board_cells (h w : Z) (c : cell) :
  c ∈ MinesweeperAI.board_cells h w ↔ in_board h w c.
Proof.
  unfold MinesweeperAI.board_cells, in_board.
  rewrite elem_of_list_to_set, list_elem_of_bind. split.
  - intros (i & (j & Hc & Hj)%list_elem_of_bind & Hi).
    apply list_elem_of_singleton in Hc as ->.
    apply elem_of_seqZ in Hi, Hj. simpl. lia.
  - intros [Hi Hj]. exists c.1. split; [|apply elem_of_seqZ; lia].
    apply list_elem_of_bind. exists c.2. split; [|apply elem_of_seqZ; lia].
    destruct c. by apply list_elem_of_singleton.
Qed.

Lemma choice_inr {A} (draw : nat) (l : list A) (x : A) :
  MinesweeperAI.choice draw l = inr x → x ∈ l.
Proof.
  unfold MinesweeperAI.choice.
  destruct (l !! _) as [y|] eqn:Hy; [|done].
  intros [= <-]. by eapply list_elem_of_lookup_2.
Qed.

Lemma choice_nonempty {A} (draw : nat) (l : list A) :
  l ≠ [] → ∃ x, MinesweeperAI.choice draw l = inr x.
Proof.
  intros Hl. unfold MinesweeperAI.choice.
  destruct (lookup_lt_is_Some_2 l (draw `mod` length l)%nat) as [x ->].
  - apply Nat.mod_upper_bound. by destruct l.
  - by exists x.
Qed.

(** What [make_random_move] does when it has a candidate. *)
Lemma make_random_move_sound (draw : nat) (ai : MinesweeperAI.t) (c : cell) :
  (MinesweeperAI.make_random_move draw ai).1 = inr c →
  in_board (MinesweeperAI.height ai) (MinesweeperAI.width ai) c
  ∧ (c ∉ MinesweeperAI.moves_made ai)
  ∧ c ∉ MinesweeperAI.mines ai.
Proof.
  intros Hc%choice_inr. apply elem_of_elements in Hc.
  unfold MinesweeperAI.candidates in Hc.
  apply elem_of_difference in Hc as [Hc Hmines].
  apply elem_of_difference in Hc as [Hc Hmoves].
  by apply elem_of_board_cells in Hc.
Qed.

Lemma make_random_move_some (draw : nat) (ai : MinesweeperAI.t) :
  MinesweeperAI.candidates ai ≠ ∅ →
  ∃ c, (MinesweeperAI.make_random_move draw ai).1 = inr c.
Proof.
  intros Hne. apply choice_nonempty. intros Hnil. apply Hne.
  by apply elements_empty_inv, leibniz_equiv in Hnil.
Qed.

Lemma make_random_move_empty (draw : nat) (ai : MinesweeperAI.t) :
  MinesweeperAI.candidates ai = ∅ →
  (MinesweeperAI.make_random_move draw ai).1 = inl MinesweeperAI.IndexError.
Proof.
  intros He. unfold MinesweeperAI.make_random_move. cbn [fst].
  rewrite He, elements_empty. unfold MinesweeperAI.choice.
  by rewrite lookup_nil.
Qed.

(** On the default 8 by 8 board the hard-coded lists are the grid
    neighbours. *)
Lemma neighbours_8x8 (c : cell) :
  in_board 8 8 c →
  list_to_set (MinesweeperAI.neighbours 8 8 c) = grid_neighbours 8 8 c.
Proof.
  intros Hc%elem_of_board_cells.
  unfold MinesweeperAI.board_cells in Hc. apply elem_of_list_to_set in Hc.
  revert c Hc. apply Forall_forall.
  apply (bool_decide_unpack _). vm_compute. exact I.
Qed.

(** ** Sentences in a store *)

Lemma heap_apply_mark_ref (p : gmap nat Heap.obj * Heap.sentence) (m : Heap.mark) :
  Heap.cells_ref (Heap.apply_mark p m).2 = Heap.cells_ref p.2.
Proof.
  destruct m; unfold Heap.apply_mark, Heap.mark_mine, Heap.mark_safe;
    by case_bool_decide.
Qed.

Lemma heap_apply_mark_other (p : gmap nat Heap.obj * Heap.sentence)
    (m : Heap.mark) (l : nat) :
  l ≠ Heap.cells_ref p.2 → (Heap.apply_mark p m).1 !! l = p.1 !! l.
Proof.
  intros Hl.
  destruct m; unfold Heap.apply_mark, Heap.mark_mine, Heap.mark_safe;
    case_bool_decide; cbn [fst]; by rewrite ?lookup_insert_ne.
Qed.

Lemma heap_apply_marks_inv (ms : list Heap.mark)
    (p : gmap nat Heap.obj * Heap.sentence) :
  Heap.cells_ref (foldl Heap.apply_mark p ms).2 = Heap.cells_ref p.2
  ∧ ∀ l, l ≠ Heap.cells_ref p.2 →
         (foldl Heap.apply_mark p ms).1 !! l = p.1 !! l.
Proof.
  revert p. induction ms as [|m ms IH]; intros p; cbn [foldl]; [done|].
  destruct (IH (Heap.apply_mark p m)) as [IHref IHother].
  rewrite heap_apply_mark_ref in IHref, IHother. split; [done|].
  intros l Hl. rewrite IHother by done. by apply heap_apply_mark_other.
Qed.

Example heap_marks_example :
  let p := Heap.apply_marks
             (<[1%nat := Heap.OSet (list_to_set [(0, 1); (1, 0); (1, 1)])]> store_example)
             {| Heap.cells_ref := 1; Heap.count := 1 |}
             [Heap.Mine (0, 1); Heap.Safe (1, 1)] in
  Heap.cells p.1 p.2 = {[ (1, 0) ]} ∧ Heap.count p.2 = 0.
Proof. cbv zeta. split; compute_done. Qed.

(** * The claims *)

(** ** Statements *)

(** What [known_safes] reports: the cells of a statement that has none
    left, whatever its count. *)
Lemma known_safes_iff (s : Sentence.t) (cs : gset cell) :
  Sentence.known_safes s = Some cs ↔ Sentence.cells s = ∅ ∧ cs = ∅.
Proof.
  split.
  - intros H. pose proof (known_safes_Some _ _ H) as ->. split; [|done].
    unfold Sentence.known_safes in H. case_bool_decide; by simplify_eq.
  - intros [Hs ->]. unfold Sentence.known_safes.
    by rewrite Hs, size_empty, bool_decide_eq_true_2.
Qed.

(** C4: [known_safes] is claimed to return the cells of a statement exactly
    when its count is 0, so that [{x,y} = 0] yields [{x,y}].  The method
    tests [len(self.cells) == 0] instead: on any statement [{x,y} = 0] it
    returns the "no conclusion" result. *)
Theorem known_safes_zero_count (x y : cell) :
  Sentence.count (Sentence.init [x; y] 0) = 0
  ∧ Sentence.known_safes (Sentence.init [x; y] 0) = None.
Proof.
  split; [done|].
  unfold Sentence.known_safes, Sentence.init. cbn [Sentence.cells].
  rewrite bool_decide_eq_false_2; [done|].
  intros H%size_empty_inv. set_solver.
Qed.

(** C10: the constructor copies.  For a collection [o] stored at [src],
    [Sentence(cells, count)] returns a sentence whose cells are those of
    [o]; whatever cells are then marked on the sentence, the object at
    [src] is still [o], and whatever is written to [src] afterwards, the
    cells of the sentence stay as they are. *)
Theorem sentence_init_copies (st : gmap nat Heap.obj) (src : nat) (n : Z)
    (o : Heap.obj) :
  st !! src = Some o →
  ∃ st1 s,
    Heap.init st src n = Some (st1, s)
    ∧ Heap.cells st1 s = Heap.to_set o
    ∧ st1 !! src = Some o
    ∧ ∀ ms : list Heap.mark,
        let p := Heap.apply_marks st1 s ms in
        p.1 !! src = Some o
        ∧ ∀ o' : Heap.obj, Heap.cells (<[src := o']> p.1) p.2 = Heap.cells p.1 p.2.
Proof.
  intros Hsrc. unfold Heap.init, Heap.alloc. rewrite Hsrc. cbn.
  set (l := fresh (dom st)).
  assert (Hl : l ≠ src).
  { intros Heq. apply (is_fresh (dom st)). fold l. rewrite Heq.
    apply elem_of_dom. by exists o. }
  eexists _, _. split; [done|]. split; [|split].
  - unfold Heap.cells. cbn. by rewrite lookup_insert_eq.
  - by rewrite lookup_insert_ne.
  - intros ms. cbv zeta. unfold Heap.apply_marks.
    destruct (heap_apply_marks_inv ms
      (<[l := Heap.OSet (Heap.to_set o)]> st,
       {| Heap.cells_ref := l; Heap.count := n |})) as [Href Hother].
    cbn [fst snd Heap.cells_ref] in Href, Hother. split.
    + rewrite Hother by done. by rewrite lookup_insert_ne.
    + intros o'. unfold Heap.cells. rewrite Href.
      by rewrite lookup_insert_ne.
Qed.

(** The copy of a three-cell list stored at address 0. *)
Lemma sentence_init_copies_witness :
  ∃ st1 s,
    Heap.init store_example 0 1 = Some (st1, s)
    ∧ Heap.cells st1 s = Heap.to_set (Heap.OList [(0, 1); (1, 0); (1, 1)])
    ∧ st1 !! 0%nat = Some (Heap.OList [(0, 1); (1, 0); (1, 1)])
    ∧ ∀ ms : list Heap.mark,
        let p := Heap.apply_marks st1 s ms in
        p.1 !! 0%nat = Some (Heap.OList [(0, 1); (1, 0); (1, 1)])
        ∧ ∀ o' : Heap.obj, Heap.cells (<[0%nat := o']> p.1) p.2 = Heap.cells p.1 p.2.
Proof.
  apply (sentence_init_copies store_example 0 1). reflexivity.
Defined.


(** ** Move selection *)

(** C9: [make_safe_move] leaves the state as it is and returns the board
    cell of lowest row-major index that is in [safes] and not in
    [moves_made]; it returns [None] exactly when every safe cell of the
    board has been played. *)
Theorem make_safe_move_lowest (ai : MinesweeperAI.t) :
  (MinesweeperAI.make_safe_move ai).2 = ai ∧
  match (MinesweeperAI.make_safe_move ai).1 with
  | Some c =>
      in_board (MinesweeperAI.height ai) (MinesweeperAI.width ai) c
      ∧ c ∈ MinesweeperAI.safes ai
      ∧ (c ∉ MinesweeperAI.moves_made ai)
      ∧ ∀ c', in_board (MinesweeperAI.height ai) (MinesweeperAI.width ai) c' →
              c' ∈ MinesweeperAI.safes ai →
              c' ∉ MinesweeperAI.moves_made ai →
              index (MinesweeperAI.width ai) c <= index (MinesweeperAI.width ai) c'
  | None =>
      ∀ c', in_board (MinesweeperAI.height ai) (MinesweeperAI.width ai) c' →
            c' ∈ MinesweeperAI.safes ai →
            c' ∈ MinesweeperAI.moves_made ai
  end.
Proof.
  split; [done|].
  unfold MinesweeperAI.make_safe_move; cbn [fst].
  set (h := MinesweeperAI.height ai). set (w := MinesweeperAI.width ai).
  set (test := fun i j : Z =>
    if bool_decide ((i, j) ∉ MinesweeperAI.moves_made ai)
       && bool_decide ((i, j) ∈ MinesweeperAI.safes ai)
    then Some (i, j) else None).
  assert (Htest : ∀ i j c, test i j = Some c →
            c = (i, j) ∧ (c ∉ MinesweeperAI.moves_made ai)
            ∧ c ∈ MinesweeperAI.safes ai).
  { intros i j c. unfold test.
    destruct (bool_decide _ && bool_decide _) eqn:E; [|done].
    apply andb_true_iff in E as [E1%bool_decide_eq_true E2%bool_decide_eq_true].
    by intros [= <-]. }
  assert (Hnone : ∀ i j, test i j = None →
            (i, j) ∈ MinesweeperAI.safes ai → (i, j) ∈ MinesweeperAI.moves_made ai).
  { intros i j. unfold test.
    destruct (bool_decide _ && bool_decide _) eqn:E; [done|].
    intros _ Hs. apply andb_false_iff in E as [E|E].
    - apply bool_decide_eq_false in E. by apply dec_stable.
    - by apply bool_decide_eq_false in E. }
  pose proof (first_of_range
    (fun i => MinesweeperAI.first_of (test i) (seqZ 0 w)) h) as Hrows.
  change (MinesweeperAI.first_of _ (seqZ 0 (MinesweeperAI.height ai)))
    with (MinesweeperAI.first_of
            (fun i => MinesweeperAI.first_of (test i) (seqZ 0 w)) (seqZ 0 h)).
  destruct (MinesweeperAI.first_of _ (seqZ 0 h)) as [c|].
  - destruct Hrows as (i & Hi & Hrow & Hearlier).
    pose proof (first_of_range (test i) w) as Hcols. rewrite Hrow in Hcols.
    destruct Hcols as (j & Hj & Hc & Hleft).
    apply Htest in Hc as (-> & Hm & Hs).
    repeat split; simpl; [lia..|done|done|].
    intros [i' j'] [Hi' Hj'] Hs' Hm'. simpl in Hi', Hj'. unfold index; simpl.
    destruct (decide (i' < i)) as [Hlt|Hge].
    { specialize (Hearlier i' ltac:(lia)).
      pose proof (first_of_range (test i') w) as Hc'. rewrite Hearlier in Hc'.
      exfalso. apply Hm', (Hnone i' j'); [apply Hc'; lia|done]. }
    destruct (decide (i' = i)) as [->|Hne].
    { destruct (decide (j' < j)) as [Hlt|?]; [|lia].
      exfalso. apply Hm', (Hnone i j'); [apply Hleft; lia|done]. }
    nia.
  - intros [i' j'] [Hi' Hj'] Hs'. simpl in Hi', Hj'.
    specialize (Hrows i' Hi').
    pose proof (first_of_range (test i') w) as Hc'. rewrite Hrows in Hc'.
    apply (Hnone i' j'); [apply Hc'; lia|done].
Qed.

(** C8: [make_random_move] is claimed to return [None] when no cell is
    left to choose.  On a board whose cells have all been played the
    candidate set is empty and [random.choice] raises [IndexError], for
    every draw; the state is left as it is. *)
Theorem make_random_move_no_candidate (draw : nat) :
  MinesweeperAI.candidates ai_board_played = ∅
  ∧ (MinesweeperAI.make_random_move draw ai_board_played).1
    = inl MinesweeperAI.IndexError
  ∧ (MinesweeperAI.make_random_move draw ai_board_played).2
    = ai_board_played.
Proof.
  assert (MinesweeperAI.candidates ai_board_played = ∅) as He by compute_done.
  split; [done|]. split; [|done]. by apply make_random_move_empty.
Qed.

(** ** Observation intake *)

(** C7: the neighbour list is claimed to be the grid neighbourhood for any
    board size.  The branch conditions use [height] and [width], the lists
    they fill use the literals 6 and 7: on a 5 by 5 board the corner
    [(0,4)] gets three cells outside the board. *)
Theorem neighbours_hard_coded :
  in_board 5 5 (0, 4)
  ∧ MinesweeperAI.neighbours 5 5 (0, 4) = [(0, 6); (1, 6); (1, 7)]
  ∧ grid_neighbours 5 5 (0, 4) = {[ (0, 3); (1, 3); (1, 4) ]}
  ∧ list_to_set (MinesweeperAI.neighbours 5 5 (0, 4))
    ≠ grid_neighbours 5 5 (0, 4).
Proof. repeat split; compute_done. Qed.

(** The sentence appended by [add_knowledge] is built from the neighbour
    list and the reported count alone. *)
Lemma observe_last (ai : MinesweeperAI.t) (c : cell) (n : Z) :
  last (MinesweeperAI.knowledge (MinesweeperAI.observe ai c n))
  = Some (Sentence.init
            (MinesweeperAI.neighbours (MinesweeperAI.height ai)
                                      (MinesweeperAI.width ai) c) n).
Proof.
  unfold MinesweeperAI.observe, MinesweeperAI.append.
  cbn [MinesweeperAI.knowledge]. by rewrite last_snoc.
Qed.

(** C2: the new statement is claimed to leave out the neighbours already
    known and to lower the count by the known mines left out.  Nothing is
    filtered.  After observing [(0,0)] with count 3 the player records
    [(0,1)] and [(1,1)] as mines; the statement it then builds for [(1,2)]
    contains both and keeps the reported count 2.  After observing [(0,0)]
    with count 0, the statement built for [(0,1)] contains the safe cell
    [(0,0)]. *)
Theorem new_sentence_unfiltered :
  (let b := board8 [(0, 1); (1, 0); (1, 1)] in
   let ai := play (MinesweeperAI.init 8 8) [observation b (0, 0)] in
   let s := MinesweeperAI.new_sentence ai (1, 2) (observation b (1, 2)).2 in
   valid_move b (0, 0) ∧ valid_move b (1, 2)
   ∧ last (MinesweeperAI.knowledge
             (MinesweeperAI.observe ai (1, 2) (observation b (1, 2)).2))
     = Some s
   ∧ (0, 1) ∈ MinesweeperAI.mines ai ∧ (0, 1) ∈ Sentence.cells s
   ∧ (1, 1) ∈ MinesweeperAI.mines ai ∧ (1, 1) ∈ Sentence.cells s
   ∧ (observation b (1, 2)).2 = 2 ∧ Sentence.count s = 2)
  ∧ (let ai := MinesweeperAI.add_knowledge (MinesweeperAI.init 8 8) (0, 0) 0 in
     let s := MinesweeperAI.new_sentence ai (0, 1) 0 in
     last (MinesweeperAI.knowledge (MinesweeperAI.observe ai (0, 1) 0))
     = Some s
     ∧ (0, 0) ∈ MinesweeperAI.safes ai ∧ (0, 0) ∈ Sentence.cells s).
Proof. cbv zeta. repeat split; compute_done. Qed.

(** The loop under [#Check subsets.] has no test: it appends one
    statement for every statement of [knowledge]. *)
Lemma check_subsets_knowledge (ai : MinesweeperAI.t) (s : Sentence.t) :
  MinesweeperAI.knowledge (MinesweeperAI.check_subsets ai s)
  = MinesweeperAI.knowledge ai
    ++ MinesweeperAI.differences (MinesweeperAI.knowledge ai) s
  ∧ length (MinesweeperAI.differences (MinesweeperAI.knowledge ai) s)
    = length (MinesweeperAI.knowledge ai).
Proof. split; [done|]. unfold MinesweeperAI.differences. by rewrite length_fmap. Qed.

(** C1: a difference is claimed to be derived only from a statement whose
    cells are a non-empty subset of the other's, to be added only when it
    has cells and is new, and [{a,b,c} = 1], [{a,b,c,d,e} = 2] are claimed
    to give [{d,e} = 1].  With these two statements in [knowledge],
    observing [(0,0)] with count 1 appends [{a,b,c} = 0] and
    [{a,b,c,d,e} = 1], derived from the new statement whose cells are
    disjoint from theirs, and the empty statement; [{d,e} = 1] is not
    added and neither [d] nor [e] is resolved.  The same happens from the
    initial state: after the observations [(0,0)] and [(5,5)], both with
    count 1, [knowledge] holds the first statement with count 0, derived
    from the second whose cells are disjoint from its own, and the empty
    statement twice. *)
Theorem check_subsets_unguarded :
  (let s := MinesweeperAI.new_sentence ai_abc_abcde (0, 0) 1 in
   let ai := MinesweeperAI.add_knowledge ai_abc_abcde (0, 0) 1 in
   Sentence.cells s ## Sentence.cells stmt_abc
   ∧ Sentence.cells s ## Sentence.cells stmt_abcde
   ∧ MinesweeperAI.knowledge ai
     = [stmt_abc; stmt_abcde; s;
        Sentence.init [(4, 4); (4, 5); (4, 6)] 0;
        Sentence.init [(4, 4); (4, 5); (4, 6); (5, 4); (5, 5)] 1;
        Sentence.init [] 0]
   ∧ (stmt_de ∉ MinesweeperAI.knowledge ai)
   ∧ ((5, 4) ∉ MinesweeperAI.mines ai ∪ MinesweeperAI.safes ai)
   ∧ (5, 5) ∉ MinesweeperAI.mines ai ∪ MinesweeperAI.safes ai)
  ∧ (let ai1 := MinesweeperAI.add_knowledge (MinesweeperAI.init 8 8) (0, 0) 1 in
     let s1 := MinesweeperAI.new_sentence (MinesweeperAI.init 8 8) (0, 0) 1 in
     let s2 := MinesweeperAI.new_sentence ai1 (5, 5) 1 in
     let ai2 := MinesweeperAI.add_knowledge ai1 (5, 5) 1 in
     MinesweeperAI.knowledge ai1 = [s1; Sentence.init [] 0]
     ∧ Sentence.cells s2 ## Sentence.cells s1
     ∧ MinesweeperAI.knowledge ai2
       = [s1; Sentence.init [] 0; s2;
          Sentence.init [(0, 1); (1, 0); (1, 1)] 0;
          Sentence.init [] (-1);
          Sentence.init [] 0]).
Proof. cbv zeta. repeat split; compute_done. Qed.

(** C3: when [add_knowledge] returns, the knowledge base is claimed to be
    at the fixed point: no statement yields a certain cell that is not
    recorded.  On an 8 by 8 board with one mine at [(3,3)], the safe cells
    [(2,2)], [(2,3)], [(3,1)] are observed with the counts 1, 1, 0 the board
    reports; the player then has [(1,1)] among its mines and offers it as
    its safe move.  Observing [(1,1)], with the count 0 the board reports,
    appends the statement of its eight neighbours with count 0, and the call
    returns with that statement in [knowledge] and its cell [(0,0)], which
    is not a mine, not recorded as safe: extracting the certain cells once
    more, as the specification defines them, yields the new safe cell
    [(0,0)], while [known_safes] of the code reports nothing for the
    statement. *)
Theorem add_knowledge_leaves_safe_cell :
  let b := board8 [(3, 3)] in
  let before := play (MinesweeperAI.init 8 8)
                     (observation b <$> [(2, 2); (2, 3); (3, 1)]) in
  let ai := MinesweeperAI.add_knowledge before (1, 1)
                                        (Minesweeper.nearby_mines b (1, 1)) in
  let s := MinesweeperAI.new_sentence before (1, 1) 0 in
  Forall (valid_move b) [(2, 2); (2, 3); (3, 1); (1, 1)]
  ∧ (observation b <$> [(2, 2); (2, 3); (3, 1); (1, 1)]).*2 = [1; 1; 0; 0]
  ∧ (MinesweeperAI.make_safe_move before).1 = Some (1, 1)
  ∧ s ∈ MinesweeperAI.knowledge ai
  ∧ Sentence.count s = 0
  ∧ (0, 0) ∈ Sentence.cells s
  ∧ Sentence.known_safes s = None
  ∧ spec_known_safes s = Some (Sentence.cells s)
  ∧ (0, 0) ∈ MinesweeperAI.gather spec_known_safes
                (MinesweeperAI.knowledge ai)
  ∧ ((0, 0) ∉ MinesweeperAI.safes ai)
  ∧ Minesweeper.is_mine b (0, 0) = false
  ∧ ¬ spec_saturated ai.
Proof.
  cbv zeta. repeat split; try compute_done.
  intros (_ & H & _). specialize (H (0, 0)). revert H. compute_done.
Qed.

(** The result is not closed under the pass [add_knowledge] itself makes
    either: after the first observation of a game, taking the differences
    with the new statement once more yields the statement [{} = -1]. *)
Example second_pass_new_statement :
  let ai := MinesweeperAI.add_knowledge (MinesweeperAI.init 8 8) (0, 0) 1 in
  let s := MinesweeperAI.new_sentence (MinesweeperAI.init 8 8) (0, 0) 1 in
  s ∈ MinesweeperAI.knowledge ai
  ∧ (Sentence.init [] (-1) ∉ MinesweeperAI.knowledge ai)
  ∧ Sentence.init [] (-1)
    ∈ MinesweeperAI.knowledge
        (MinesweeperAI.conclude (MinesweeperAI.check_subsets ai s)).
Proof. cbv zeta. repeat split; compute_done. Qed.

(** What the extraction of [add_knowledge] does reach, with [known_mines]
    and [known_safes] as the code has them: when the call returns they
    report no cell on any statement of [knowledge], and running the
    extraction again changes nothing. *)
Lemma add_knowledge_nothing_reported (ai : MinesweeperAI.t) (c : cell)
    (n : Z) :
  let r := MinesweeperAI.add_knowledge ai c n in
  MinesweeperAI.gather Sentence.known_mines (MinesweeperAI.knowledge r) = []
  ∧ MinesweeperAI.gather Sentence.known_safes (MinesweeperAI.knowledge r) = []
  ∧ MinesweeperAI.conclude r = r.
Proof.
  cbv zeta. unfold MinesweeperAI.add_knowledge. split; [|split].
  - apply gather_known_mines_conclude.
  - apply gather_known_safes.
  - apply conclude_idem.
Qed.


(** ** Invariants *)

(** C5: every statement of a reachable knowledge base is claimed to have
    [0 <= count <= |cells|].  On an 8 by 8 board with mines at [(0,1)] and
    [(4,4)], the observations of the safe cells [(0,0)] and [(5,5)], both
    with the count 1 the board reports, leave the statement [{} = -1] in
    [knowledge]. *)
Theorem count_out_of_range_reachable :
  let b := board8 [(0, 1); (4, 4)] in
  let ai := play (MinesweeperAI.init 8 8)
                 [observation b (0, 0); observation b (5, 5)] in
  valid_move b (0, 0) ∧ valid_move b (5, 5)
  ∧ Sentence.init [] (-1) ∈ MinesweeperAI.knowledge ai
  ∧ ¬ Forall count_in_range (MinesweeperAI.knowledge ai).
Proof. cbv zeta. repeat split; compute_done. Qed.

(** C6: [safes] and [mines] are claimed to be disjoint in every reachable
    state.  On an 8 by 8 board with mines at [(0,1)], [(1,0)] and [(1,1)],
    the observation of the safe corner [(0,0)], with the count 3 the board
    reports, records all three neighbours both as safe and as mines. *)
Theorem safes_mines_overlap_reachable :
  let b := board8 [(0, 1); (1, 0); (1, 1)] in
  let ai := play (MinesweeperAI.init 8 8) [observation b (0, 0)] in
  valid_move b (0, 0)
  ∧ (observation b (0, 0)).2 = 3
  ∧ MinesweeperAI.safes ai ∩ MinesweeperAI.mines ai
    = {[ (0, 1); (1, 0); (1, 1) ]}.
Proof. cbv zeta. repeat split; compute_done. Qed.

(** * Further properties *)

(** ** Statements under marking *)

Lemma sentence_mark_mine_absent (s : Sentence.t) (c : cell) :
  c ∉ Sentence.cells (Sentence.mark_mine s c).
Proof. unfold Sentence.mark_mine. case_bool_decide; cbn; set_solver. Qed.

Lemma sentence_mark_safe_absent (s : Sentence.t) (c : cell) :
  c ∉ Sentence.cells (Sentence.mark_safe s c).
Proof. unfold Sentence.mark_safe. case_bool_decide; cbn; set_solver. Qed.

Lemma sentence_mark_mine_noop (s : Sentence.t) (c : cell) :
  c ∉ Sentence.cells s → Sentence.mark_mine s c = s.
Proof. intros H. unfold Sentence.mark_mine. by rewrite bool_decide_eq_false_2. Qed.

Lemma sentence_mark_safe_noop (s : Sentence.t) (c : cell) :
  c ∉ Sentence.cells s → Sentence.mark_safe s c = s.
Proof. intros H. unfold Sentence.mark_safe. by rewrite bool_decide_eq_false_2. Qed.

Lemma size_remove (X : gset cell) (c : cell) :
  c ∈ X → size X = S (size (X ∖ {[c]})).
Proof.
  intros Hc. rewrite size_difference by set_solver. rewrite size_singleton.
  assert (size X ≠ 0%nat); [|lia].
  intros H0%size_empty_iff. set_solver.
Qed.

(** X1: marking a cell a second time, as a mine or as safe, changes nothing:
    the test [cell in self.cells] fails once the cell is removed. *)
Theorem sentence_mark_idempotent (s : Sentence.t) (c : cell) :
  Sentence.mark_mine (Sentence.mark_mine s c) c = Sentence.mark_mine s c
  ∧ Sentence.mark_safe (Sentence.mark_safe s c) c = Sentence.mark_safe s c
  ∧ Sentence.mark_safe (Sentence.mark_mine s c) c = Sentence.mark_mine s c
  ∧ Sentence.mark_mine (Sentence.mark_safe s c) c = Sentence.mark_safe s c.
Proof.
  repeat split.
  - apply sentence_mark_mine_noop, sentence_mark_mine_absent.
  - apply sentence_mark_safe_noop, sentence_mark_safe_absent.
  - apply sentence_mark_safe_noop, sentence_mark_mine_absent.
  - apply sentence_mark_mine_noop, sentence_mark_safe_absent.
Qed.

(** X2: marking a list of cells on a statement, one after the other, removes
    exactly the listed cells; marked as mines they lower the count by the
    number of listed cells the statement held, marked as safe they leave the
    count alone.  Order and repetitions in the list do not matter. *)
Theorem sentence_marks_closed_form (l : list cell) (s : Sentence.t) :
  foldl Sentence.mark_mine s l
  = {| Sentence.cells := Sentence.cells s ∖ list_to_set l;
       Sentence.count :=
         Sentence.count s
         - Z.of_nat (size (Sentence.cells s ∩ list_to_set l)) |}
  ∧ foldl Sentence.mark_safe s l
    = {| Sentence.cells := Sentence.cells s ∖ list_to_set l;
         Sentence.count := Sentence.count s |}.
Proof. split; [apply mark_mines_spec | apply mark_safes_spec]. Qed.

(** X3: a statement all of whose cells are mines stays so when one of them
    is marked: [known_mines] then reports the remaining cells. *)
Theorem known_mines_after_mark_mine (s : Sentence.t) (cs : gset cell) (c : cell) :
  Sentence.known_mines s = Some cs →
  Sentence.known_mines (Sentence.mark_mine s c) = Some (cs ∖ {[c]}).
Proof.
  intros [-> Hs]%known_mines_Some. apply known_mines_Some.
  pose proof (mark_mines_slack [c] s) as Hslack. cbn [foldl] in Hslack.
  split; [|lia].
  unfold Sentence.mark_mine. case_bool_decide; cbn; [done|set_solver].
Qed.

Lemma known_mines_after_mark_mine_witness :
  Sentence.known_mines
    (Sentence.mark_mine (Sentence.init [(0, 1); (1, 0)] 2) (0, 1))
  = Some (list_to_set [(0, 1); (1, 0)] ∖ {[ (0, 1) ]}).
Proof.
  apply (known_mines_after_mark_mine (Sentence.init [(0, 1); (1, 0)] 2)).
  vm_compute. reflexivity.
Defined.

(** X4: when a statement has exactly one cell more than its count, marking
    one of its cells safe makes [known_mines] report all the others. *)
Theorem known_mines_after_mark_safe (s : Sentence.t) (c : cell) :
  c ∈ Sentence.cells s →
  Z.of_nat (size (Sentence.cells s)) = Sentence.count s + 1 →
  Sentence.known_mines (Sentence.mark_safe s c)
  = Some (Sentence.cells s ∖ {[c]}).
Proof.
  intros Hc Hsz. apply known_mines_Some.
  unfold Sentence.mark_safe, slack. rewrite bool_decide_eq_true_2 by done.
  cbn [Sentence.cells Sentence.count]. split; [done|].
  rewrite (size_remove _ c Hc) in Hsz. lia.
Qed.

Lemma known_mines_after_mark_safe_witness :
  Sentence.known_mines
    (Sentence.mark_safe (Sentence.init [(0, 1); (1, 0); (1, 1)] 2) (1, 1))
  = Some (Sentence.cells (Sentence.init [(0, 1); (1, 0); (1, 1)] 2) ∖ {[ (1, 1) ]}).
Proof.
  apply (known_mines_after_mark_safe
           (Sentence.init [(0, 1); (1, 0); (1, 1)] 2) (1, 1));
    vm_compute; reflexivity.
Defined.

(** X5: on a statement with [0 <= count <= |cells|] that holds the cell,
    [mark_mine] keeps the bounds exactly when the count is at least 1, and
    [mark_safe] keeps them exactly when the count is below the number of
    cells. *)
Theorem count_in_range_after_mark (s : Sentence.t) (c : cell) :
  c ∈ Sentence.cells s →
  count_in_range s →
  (count_in_range (Sentence.mark_mine s c) ↔ 1 <= Sentence.count s)
  ∧ (count_in_range (Sentence.mark_safe s c)
     ↔ Sentence.count s < Z.of_nat (size (Sentence.cells s))).
Proof.
  intros Hc [Hlo Hhi].
  unfold count_in_range, Sentence.mark_mine, Sentence.mark_safe.
  rewrite !bool_decide_eq_true_2 by done. cbn [Sentence.cells Sentence.count].
  rewrite (size_remove _ c Hc) in Hhi |- *. lia.
Qed.

Lemma count_in_range_after_mark_witness :
  (count_in_range (Sentence.mark_mine (Sentence.init [(0, 1); (1, 0)] 1) (0, 1))
   ↔ 1 <= Sentence.count (Sentence.init [(0, 1); (1, 0)] 1))
  ∧ (count_in_range (Sentence.mark_safe (Sentence.init [(0, 1); (1, 0)] 1) (0, 1))
     ↔ Sentence.count (Sentence.init [(0, 1); (1, 0)] 1)
       < Z.of_nat (size (Sentence.cells (Sentence.init [(0, 1); (1, 0)] 1)))).
Proof.
  apply (count_in_range_after_mark (Sentence.init [(0, 1); (1, 0)] 1) (0, 1)).
  - apply (bool_decide_unpack _). vm_compute. exact I.
  - apply (bool_decide_unpack _). vm_compute. exact I.
Defined.

(** ** The player under marking *)

Lemma cells_mark_mine (s : Sentence.t) (c : cell) :
  Sentence.cells (Sentence.mark_mine s c) = Sentence.cells s ∖ {[c]}.
Proof. unfold Sentence.mark_mine. case_bool_decide; cbn; set_solver. Qed.

Lemma cells_mark_safe (s : Sentence.t) (c : cell) :
  Sentence.cells (Sentence.mark_safe s c) = Sentence.cells s ∖ {[c]}.
Proof. unfold Sentence.mark_safe. case_bool_decide; cbn; set_solver. Qed.

Lemma cells_mark_mines (l : list cell) (s : Sentence.t) :
  Sentence.cells (foldl Sentence.mark_mine s l)
  = Sentence.cells s ∖ list_to_set l.
Proof. by rewrite mark_mines_spec. Qed.

Lemma cells_mark_safes (l : list cell) (s : Sentence.t) :
  Sentence.cells (foldl Sentence.mark_safe s l)
  = Sentence.cells s ∖ list_to_set l.
Proof. by rewrite mark_safes_spec. Qed.

Lemma ai_eq (a b : MinesweeperAI.t) :
  MinesweeperAI.height a = MinesweeperAI.height b →
  MinesweeperAI.width a = MinesweeperAI.width b →
  MinesweeperAI.moves_made a = MinesweeperAI.moves_made b →
  MinesweeperAI.mines a = MinesweeperAI.mines b →
  MinesweeperAI.safes a = MinesweeperAI.safes b →
  MinesweeperAI.knowledge a = MinesweeperAI.knowledge b →
  a = b.
Proof. destruct a, b; cbn; congruence. Qed.

(** X6: [MinesweeperAI.mark_mine] records the cell in [mines], leaves
    [safes] and [moves_made] alone, keeps the number of statements, and
    leaves no statement that mentions the cell; a second call with the same
    cell changes nothing. *)
Theorem ai_mark_mine_effect (ai : MinesweeperAI.t) (c : cell) :
  let r := MinesweeperAI.mark_mine ai c in
  MinesweeperAI.mines r = {[c]} ∪ MinesweeperAI.mines ai
  ∧ MinesweeperAI.safes r = MinesweeperAI.safes ai
  ∧ MinesweeperAI.moves_made r = MinesweeperAI.moves_made ai
  ∧ length (MinesweeperAI.knowledge r) = length (MinesweeperAI.knowledge ai)
  ∧ (∀ s, s ∈ MinesweeperAI.knowledge r → c ∉ Sentence.cells s)
  ∧ MinesweeperAI.mark_mine r c = r.
Proof.
  cbv zeta. repeat split.
  - cbn. by rewrite length_fmap.
  - intros s (s0 & -> & _)%list_elem_of_fmap. apply sentence_mark_mine_absent.
  - apply ai_eq; cbn; try done; [set_solver|].
    rewrite <- list_fmap_compose. apply list_fmap_ext. intros _ s _. cbn.
    apply sentence_mark_mine_noop, sentence_mark_mine_absent.
Qed.

(** X7: [MinesweeperAI.mark_safe] records the cell in [safes], leaves
    [mines] and [moves_made] alone, keeps the number of statements and the
    count of each, and leaves no statement that mentions the cell; a second
    call with the same cell changes nothing. *)
Theorem ai_mark_safe_effect (ai : MinesweeperAI.t) (c : cell) :
  let r := MinesweeperAI.mark_safe ai c in
  MinesweeperAI.safes r = {[c]} ∪ MinesweeperAI.safes ai
  ∧ MinesweeperAI.mines r = MinesweeperAI.mines ai
  ∧ MinesweeperAI.moves_made r = MinesweeperAI.moves_made ai
  ∧ Sentence.count <$> MinesweeperAI.knowledge r
    = Sentence.count <$> MinesweeperAI.knowledge ai
  ∧ (∀ s, s ∈ MinesweeperAI.knowledge r → c ∉ Sentence.cells s)
  ∧ MinesweeperAI.mark_safe r c = r.
Proof.
  cbv zeta. repeat split.
  - cbn. rewrite <- list_fmap_compose. apply list_fmap_ext. intros _ s _. cbn.
    unfold Sentence.mark_safe. by case_bool_decide.
  - intros s (s0 & -> & _)%list_elem_of_fmap. apply sentence_mark_safe_absent.
  - apply ai_eq; cbn; try done; [set_solver|].
    rewrite <- list_fmap_compose. apply list_fmap_ext. intros _ s _. cbn.
    apply sentence_mark_safe_noop, sentence_mark_safe_absent.
Qed.

(** X8: marking a list of cells on the player, one call after the other,
    gives the same state for any two lists with the same elements, whatever
    their order and repetitions. *)
Theorem ai_marks_order (l l' : list cell) (ai : MinesweeperAI.t) :
  (∀ x, x ∈ l ↔ x ∈ l') →
  foldl MinesweeperAI.mark_mine ai l = foldl MinesweeperAI.mark_mine ai l'
  ∧ foldl MinesweeperAI.mark_safe ai l = foldl MinesweeperAI.mark_safe ai l'.
Proof.
  intros Hll'. split; [by apply mark_mines_perm|].
  rewrite !ai_mark_safes_spec.
  assert (list_to_set l = (list_to_set l' : gset cell)) as Hset by set_solver.
  rewrite Hset. f_equal. apply list_fmap_ext. intros _ s _.
  by rewrite !mark_safes_spec, Hset.
Qed.

Lemma ai_marks_order_witness :
  foldl MinesweeperAI.mark_mine ai_abc_abcde [(4, 4); (5, 5)]
  = foldl MinesweeperAI.mark_mine ai_abc_abcde [(5, 5); (4, 4); (5, 5)]
  ∧ foldl MinesweeperAI.mark_safe ai_abc_abcde [(4, 4); (5, 5)]
    = foldl MinesweeperAI.mark_safe ai_abc_abcde [(5, 5); (4, 4); (5, 5)].
Proof.
  apply (ai_marks_order [(4, 4); (5, 5)] [(5, 5); (4, 4); (5, 5)]).
  intros x. rewrite !elem_of_cons, !elem_of_nil. tauto.
Defined.

(** X9: marking one cell as a mine and a different cell as safe gives the
    same state in either order. *)
Theorem ai_mark_mine_safe_commute (ai : MinesweeperAI.t) (a b : cell) :
  a ≠ b →
  MinesweeperAI.mark_safe (MinesweeperAI.mark_mine ai a) b
  = MinesweeperAI.mark_mine (MinesweeperAI.mark_safe ai b) a.
Proof.
  intros Hab. apply ai_eq; cbn; try done.
  rewrite <- !list_fmap_compose. apply list_fmap_ext. intros _ s _. cbn.
  unfold Sentence.mark_mine, Sentence.mark_safe.
  repeat (case_bool_decide; cbn [Sentence.cells Sentence.count] in *);
    try (exfalso; set_solver); try done.
  f_equal. set_solver.
Qed.

Lemma ai_mark_mine_safe_commute_witness :
  MinesweeperAI.mark_safe (MinesweeperAI.mark_mine ai_abc_abcde (4, 4)) (5, 5)
  = MinesweeperAI.mark_mine (MinesweeperAI.mark_safe ai_abc_abcde (5, 5)) (4, 4).
Proof. apply (ai_mark_mine_safe_commute ai_abc_abcde (4, 4) (5, 5)). discriminate. Defined.

(** ** One observation *)

Lemma conclude_fields (ai : MinesweeperAI.t) :
  MinesweeperAI.height (MinesweeperAI.conclude ai) = MinesweeperAI.height ai
  ∧ MinesweeperAI.width (MinesweeperAI.conclude ai) = MinesweeperAI.width ai
  ∧ MinesweeperAI.moves_made (MinesweeperAI.conclude ai)
    = MinesweeperAI.moves_made ai
  ∧ MinesweeperAI.safes (MinesweeperAI.conclude ai) = MinesweeperAI.safes ai
  ∧ MinesweeperAI.mines (MinesweeperAI.conclude ai)
    = list_to_set (MinesweeperAI.gather Sentence.known_mines
                     (MinesweeperAI.knowledge ai))
      ∪ MinesweeperAI.mines ai
  ∧ MinesweeperAI.knowledge (MinesweeperAI.conclude ai)
    = (fun s => foldl Sentence.mark_mine s
                  (MinesweeperAI.gather Sentence.known_mines
                     (MinesweeperAI.knowledge ai)))
      <$> MinesweeperAI.knowledge ai.
Proof. rewrite conclude_mines, ai_mark_mines_spec. by cbn. Qed.

Lemma observe_fields (ai : MinesweeperAI.t) (c : cell) (n : Z) :
  let nb : gset cell :=
    list_to_set (MinesweeperAI.neighbours (MinesweeperAI.height ai)
                                          (MinesweeperAI.width ai) c) in
  let o := MinesweeperAI.observe ai c n in
  MinesweeperAI.height o = MinesweeperAI.height ai
  ∧ MinesweeperAI.width o = MinesweeperAI.width ai
  ∧ MinesweeperAI.moves_made o = {[c]} ∪ MinesweeperAI.moves_made ai
  ∧ MinesweeperAI.safes o
    = (if bool_decide (c ∈ MinesweeperAI.mines ai)
       then {[c]} ∪ MinesweeperAI.safes ai
       else nb ∪ ({[c]} ∪ MinesweeperAI.safes ai))
  ∧ MinesweeperAI.mines o
    = (if bool_decide (c ∈ MinesweeperAI.mines ai)
       then nb ∪ MinesweeperAI.mines ai
       else MinesweeperAI.mines ai)
  ∧ ∃ kn, MinesweeperAI.knowledge o
          = kn ++ [MinesweeperAI.new_sentence ai c n]
          ∧ length kn = length (MinesweeperAI.knowledge ai)
          ∧ Forall2 (fun x x0 => Sentence.cells x
                                 = Sentence.cells x0 ∖ ({[c]} ∪ nb))
                    kn (MinesweeperAI.knowledge ai).
Proof.
  cbv zeta. unfold MinesweeperAI.observe.
  rewrite neighbour_marks_spec.
  set (nb := list_to_set _ : gset cell).
  change (Sentence.cells (MinesweeperAI.new_sentence ai c n)) with nb.
  case_bool_decide as Hm.
  - rewrite ai_mark_mines_spec.
    cbn [MinesweeperAI.height MinesweeperAI.width MinesweeperAI.moves_made
         MinesweeperAI.safes MinesweeperAI.mines MinesweeperAI.knowledge
         MinesweeperAI.append MinesweeperAI.record_move
         MinesweeperAI.mark_safe].
    rewrite list_to_set_elements_L.
    repeat split; try done.
    eexists. split; [done|]. split; [by rewrite !length_fmap|].
    rewrite <- list_fmap_compose. apply Forall2_fmap_l, Forall_Forall2_diag.
    apply Forall_forall. intros x _. cbn.
    rewrite cells_mark_mines, cells_mark_safe, list_to_set_elements_L.
    set_solver.
  - rewrite ai_mark_safes_spec.
    cbn [MinesweeperAI.height MinesweeperAI.width MinesweeperAI.moves_made
         MinesweeperAI.safes MinesweeperAI.mines MinesweeperAI.knowledge
         MinesweeperAI.append MinesweeperAI.record_move
         MinesweeperAI.mark_safe].
    rewrite list_to_set_elements_L.
    repeat split; try done.
    eexists. split; [done|]. split; [by rewrite !length_fmap|].
    rewrite <- list_fmap_compose. apply Forall2_fmap_l, Forall_Forall2_diag.
    apply Forall_forall. intros x _. cbn.
    rewrite cells_mark_safes, cells_mark_safe, list_to_set_elements_L.
    set_solver.
Qed.

Lemma add_knowledge_fields (ai : MinesweeperAI.t) (c : cell) (n : Z) :
  let nb : gset cell :=
    list_to_set (MinesweeperAI.neighbours (MinesweeperAI.height ai)
                                          (MinesweeperAI.width ai) c) in
  let r := MinesweeperAI.add_knowledge ai c n in
  MinesweeperAI.height r = MinesweeperAI.height ai
  ∧ MinesweeperAI.width r = MinesweeperAI.width ai
  ∧ MinesweeperAI.moves_made r = {[c]} ∪ MinesweeperAI.moves_made ai
  ∧ MinesweeperAI.safes r
    = (if bool_decide (c ∈ MinesweeperAI.mines ai)
       then {[c]} ∪ MinesweeperAI.safes ai
       else nb ∪ ({[c]} ∪ MinesweeperAI.safes ai))
  ∧ MinesweeperAI.mines ai ⊆ MinesweeperAI.mines r
  ∧ (c ∈ MinesweeperAI.mines ai → nb ⊆ MinesweeperAI.mines r).
Proof.
  cbv zeta. unfold MinesweeperAI.add_knowledge.
  destruct (conclude_fields
              (MinesweeperAI.check_subsets (MinesweeperAI.observe ai c n)
                 (MinesweeperAI.new_sentence ai c n)))
    as (-> & -> & -> & -> & -> & _).
  destruct (observe_fields ai c n) as (Hh & Hw & Hmv & Hs & Hm & _).
  cbn [MinesweeperAI.check_subsets MinesweeperAI.append MinesweeperAI.height
       MinesweeperAI.width MinesweeperAI.moves_made MinesweeperAI.safes
       MinesweeperAI.mines].
  rewrite Hm. repeat split; try done.
  - case_bool_decide; set_solver.
  - intros Hc. rewrite bool_decide_eq_true_2 by done. set_solver.
Qed.

(** X10: what one call of [add_knowledge] records.  The board size is
    kept, the cell is added to [moves_made] and nothing else is, and no mine
    is forgotten.  When the cell is not recorded as a mine, [safes] gains
    the cell and every cell of its neighbour list, whatever the count; when
    it is, [safes] gains the cell alone and the neighbour list goes to
    [mines]. *)
Theorem add_knowledge_records (ai : MinesweeperAI.t) (c : cell) (n : Z) :
  let nb : gset cell :=
    list_to_set (MinesweeperAI.neighbours (MinesweeperAI.height ai)
                                          (MinesweeperAI.width ai) c) in
  let r := MinesweeperAI.add_knowledge ai c n in
  MinesweeperAI.height r = MinesweeperAI.height ai
  ∧ MinesweeperAI.width r = MinesweeperAI.width ai
  ∧ MinesweeperAI.moves_made r = {[c]} ∪ MinesweeperAI.moves_made ai
  ∧ MinesweeperAI.safes r
    = (if bool_decide (c ∈ MinesweeperAI.mines ai)
       then {[c]} ∪ MinesweeperAI.safes ai
       else nb ∪ ({[c]} ∪ MinesweeperAI.safes ai))
  ∧ MinesweeperAI.mines ai ⊆ MinesweeperAI.mines r
  ∧ (c ∈ MinesweeperAI.mines ai → nb ⊆ MinesweeperAI.mines r).
Proof. apply add_knowledge_fields. Qed.

(** X11: [add_knowledge] never drops a statement: a knowledge base of [k]
    statements has [2 * (k + 1)] after the call, so a new player holds
    [2 ^ (m + 1) - 2] statements after [m] observations. *)
Theorem add_knowledge_doubles (ai : MinesweeperAI.t) (c : cell) (n : Z)
    (obs : list (cell * Z)) (h w : Z) :
  length (MinesweeperAI.knowledge (MinesweeperAI.add_knowledge ai c n))
  = (2 * (length (MinesweeperAI.knowledge ai) + 1))%nat
  ∧ (length (MinesweeperAI.knowledge (play (MinesweeperAI.init h w) obs)) + 2
     = 2 ^ (length obs + 1))%nat.
Proof.
  assert (Hstep : ∀ a c n,
    length (MinesweeperAI.knowledge (MinesweeperAI.add_knowledge a c n))
    = (2 * (length (MinesweeperAI.knowledge a) + 1))%nat).
  { intros a c' n'. unfold MinesweeperAI.add_knowledge.
    destruct (conclude_fields
                (MinesweeperAI.check_subsets (MinesweeperAI.observe a c' n')
                   (MinesweeperAI.new_sentence a c' n')))
      as (_ & _ & _ & _ & _ & ->).
    rewrite length_fmap.
    destruct (observe_fields a c' n') as (_ & _ & _ & _ & _ & kn & Hkn & Hlen & _).
    cbn [MinesweeperAI.check_subsets MinesweeperAI.append
         MinesweeperAI.knowledge].
    unfold MinesweeperAI.differences.
    rewrite length_app, length_fmap, Hkn, length_app, Hlen. cbn. lia. }
  split; [apply Hstep|].
  unfold play.
  assert (Hgen : ∀ (l : list (cell * Z)) (a : MinesweeperAI.t),
    (length (MinesweeperAI.knowledge
       (foldl (fun a o => MinesweeperAI.add_knowledge a o.1 o.2) a l)) + 2
     = 2 ^ length l * (length (MinesweeperAI.knowledge a) + 2))%nat).
  { induction l as [|o l IH]; intros a; cbn [foldl length].
    - cbn. lia.
    - rewrite IH, Hstep. rewrite Nat.pow_succ_r'. lia. }
  rewrite Hgen. cbn [MinesweeperAI.init MinesweeperAI.knowledge length].
  rewrite Nat.add_1_r, Nat.pow_succ_r'. lia.
Qed.

(** X12: the certainty extraction at the end of [add_knowledge] never adds
    to [safes]: [known_safes] reports cells only for a statement that has
    none.  It adds to [mines] exactly the cells of the statements whose
    count equals their number of cells. *)
Theorem conclude_effect (ai : MinesweeperAI.t) :
  MinesweeperAI.safes (MinesweeperAI.conclude ai) = MinesweeperAI.safes ai
  ∧ ∀ x, x ∈ MinesweeperAI.mines (MinesweeperAI.conclude ai)
         ↔ x ∈ MinesweeperAI.mines ai
           ∨ ∃ s, s ∈ MinesweeperAI.knowledge ai
                  ∧ Z.of_nat (size (Sentence.cells s)) = Sentence.count s
                  ∧ x ∈ Sentence.cells s.
Proof.
  destruct (conclude_fields ai) as (_ & _ & _ & -> & -> & _).
  split; [done|]. intros x.
  rewrite elem_of_union, elem_of_list_to_set.
  unfold MinesweeperAI.gather. rewrite list_elem_of_bind. split.
  - intros [(s & Hx & Hs)|Hx]; [|by left]. right. exists s.
    destruct (Sentence.known_mines s) as [cs|] eqn:Hk.
    + apply known_mines_Some in Hk as [-> Hk]. unfold slack in Hk.
      apply elem_of_elements in Hx. split; [done|]. split; [lia|done].
    + by apply elem_of_nil in Hx.
  - intros [Hx|(s & Hs & Hsz & Hx)]; [by right|]. left. exists s.
    split; [|done]. unfold Sentence.known_mines.
    rewrite bool_decide_eq_true_2 by done. by apply elem_of_elements.
Qed.

(** ** Invariants of the reachable states *)

Lemma add_knowledge_knowledge (ai : MinesweeperAI.t) (c : cell) (n : Z) :
  let nb : gset cell :=
    list_to_set (MinesweeperAI.neighbours (MinesweeperAI.height ai)
                                          (MinesweeperAI.width ai) c) in
  let s := MinesweeperAI.new_sentence ai c n in
  ∃ kn ms,
    MinesweeperAI.knowledge (MinesweeperAI.add_knowledge ai c n)
    = (fun x => foldl Sentence.mark_mine x ms)
      <$> ((kn ++ [s]) ++ MinesweeperAI.differences (kn ++ [s]) s)
    ∧ Forall2 (fun x x0 => Sentence.cells x
                           = Sentence.cells x0 ∖ ({[c]} ∪ nb))
              kn (MinesweeperAI.knowledge ai).
Proof.
  cbv zeta. unfold MinesweeperAI.add_knowledge.
  destruct (conclude_fields
              (MinesweeperAI.check_subsets (MinesweeperAI.observe ai c n)
                 (MinesweeperAI.new_sentence ai c n)))
    as (_ & _ & _ & _ & _ & ->).
  destruct (observe_fields ai c n) as (_ & _ & _ & _ & _ & kn & Hkn & _ & Hall).
  cbn [MinesweeperAI.check_subsets MinesweeperAI.append
       MinesweeperAI.knowledge].
  rewrite Hkn. by eexists kn, _.
Qed.

Lemma same_or_apart_removal (f : Sentence.t → Sentence.t) (R : gset cell)
    (kn : list Sentence.t) :
  (∀ s, Sentence.cells (f s) = Sentence.cells s ∖ R) →
  same_or_apart kn → same_or_apart (f <$> kn).
Proof.
  intros Hf Hkn s1 s2 (x1 & -> & H1)%list_elem_of_fmap
                      (x2 & -> & H2)%list_elem_of_fmap.
  rewrite !Hf. destruct (Hkn x1 x2 H1 H2) as [->|Hd]; [by left|right].
  set_solver.
Qed.

Lemma same_or_apart_by_cells (kn kn' : list Sentence.t) :
  (∀ y, y ∈ kn' → Sentence.cells y = ∅
                  ∨ ∃ x, x ∈ kn ∧ Sentence.cells y = Sentence.cells x) →
  same_or_apart kn → same_or_apart kn'.
Proof.
  intros Hy Hkn s1 s2 H1 H2.
  destruct (Hy s1 H1) as [->|(x1 & Hx1 & ->)]; [right; set_solver|].
  destruct (Hy s2 H2) as [->|(x2 & Hx2 & ->)]; [right; set_solver|].
  by apply Hkn.
Qed.

Lemma same_or_apart_add_knowledge (ai : MinesweeperAI.t) (c : cell) (n : Z) :
  same_or_apart (MinesweeperAI.knowledge ai) →
  same_or_apart
    (MinesweeperAI.knowledge (MinesweeperAI.add_knowledge ai c n)).
Proof.
  intros Hai.
  destruct (add_knowledge_knowledge ai c n) as (kn & ms & -> & Hall).
  set (s := MinesweeperAI.new_sentence ai c n) in *.
  set (nb := list_to_set _ : gset cell) in Hall.
  assert (Hs : Sentence.cells s = nb) by done.
  assert (Hkn : ∀ x, x ∈ kn → ∃ x0, x0 ∈ MinesweeperAI.knowledge ai
            ∧ Sentence.cells x = Sentence.cells x0 ∖ ({[c]} ∪ nb)).
  { intros x Hx. apply list_elem_of_lookup in Hx as [i Hi].
    destruct (Forall2_lookup_l _ _ _ _ _ Hall Hi) as (x0 & Hi0 & Hc).
    exists x0. split; [by eapply list_elem_of_lookup_2|done]. }
  assert (Hbase : same_or_apart (kn ++ [s])).
  { intros s1 s2 [H1|H1%list_elem_of_singleton]%elem_of_app
                 [H2|H2%list_elem_of_singleton]%elem_of_app; subst.
    - destruct (Hkn _ H1) as (x1 & Hx1 & ->).
      destruct (Hkn _ H2) as (x2 & Hx2 & ->).
      destruct (Hai x1 x2 Hx1 Hx2) as [->|Hd]; [by left|right; set_solver].
    - destruct (Hkn _ H1) as (x1 & Hx1 & ->). right. rewrite Hs. set_solver.
    - destruct (Hkn _ H2) as (x2 & Hx2 & ->). right. rewrite Hs. set_solver.
    - by left. }
  apply (same_or_apart_removal _ (list_to_set ms));
    [intros x; apply cells_mark_mines|].
  apply (same_or_apart_by_cells (kn ++ [s])); [|done].
  intros y [Hy|Hy]%elem_of_app; [right; by exists y|].
  unfold MinesweeperAI.differences in Hy.
  apply list_elem_of_fmap in Hy as (x & -> & Hx). cbn [Sentence.init_set Sentence.cells].
  apply elem_of_app in Hx as [Hx|Hx%list_elem_of_singleton].
  - right. exists x. split; [apply elem_of_app; by left|].
    destruct (Hkn _ Hx) as (x0 & _ & Hc). rewrite Hs. set_solver.
  - left. subst x. set_solver.
Qed.

Lemma cells_recorded_step (SA MA SR MR nb X X0 L : gset cell) (c : cell)
    (b : bool) :
  SR = (if b then {[c]} ∪ SA else nb ∪ ({[c]} ∪ SA)) →
  MA ⊆ MR →
  (b = true → nb ⊆ MR) →
  X0 ⊆ SA ∪ MA →
  X ⊆ X0 ∪ nb →
  X ∖ L ⊆ SR ∪ MR.
Proof.
  intros -> HM Hnb H0 HX x [Hx _]%elem_of_difference.
  apply HX, elem_of_union in Hx as [Hx|Hx].
  - apply H0, elem_of_union in Hx as [Hx|Hx].
    + apply elem_of_union_l. destruct b; rewrite !elem_of_union; auto.
    + apply elem_of_union_r. by apply HM.
  - destruct b.
    + apply elem_of_union_r. by apply Hnb.
    + apply elem_of_union_l. rewrite !elem_of_union. auto.
Qed.

Lemma cells_recorded_add_knowledge (ai : MinesweeperAI.t) (c : cell) (n : Z) :
  cells_recorded ai → cells_recorded (MinesweeperAI.add_knowledge ai c n).
Proof.
  intros Hai y Hy.
  destruct (add_knowledge_fields ai c n) as (_ & _ & _ & Hsafes & Hmines & Hnb).
  destruct (add_knowledge_knowledge ai c n) as (kn & ms & Hk & Hall).
  rewrite Hk in Hy. clear Hk.
  set (s := MinesweeperAI.new_sentence ai c n) in *.
  set (nb := list_to_set _ : gset cell) in *.
  assert (Hs : Sentence.cells s = nb) by reflexivity.
  clearbody s nb.
  set (SR := MinesweeperAI.safes _) in *.
  set (MR := MinesweeperAI.mines (MinesweeperAI.add_knowledge _ _ _)) in *.
  clearbody SR MR.
  assert (Hb : bool_decide (c ∈ MinesweeperAI.mines ai) = true → nb ⊆ MR).
  { intros Hc%bool_decide_eq_true. by apply Hnb. }
  clear Hnb.
  assert (Hkn : ∀ x, x ∈ kn ++ [s] →
            ∃ X0, X0 ⊆ MinesweeperAI.safes ai ∪ MinesweeperAI.mines ai
                  ∧ Sentence.cells x ⊆ X0 ∪ nb).
  { intros x [Hx|Hx%list_elem_of_singleton]%elem_of_app.
    - apply list_elem_of_lookup in Hx as [i Hi].
      destruct (Forall2_lookup_l _ _ _ _ _ Hall Hi) as (x0 & Hi0 & Hc).
      apply list_elem_of_lookup_2 in Hi0. exists (Sentence.cells x0).
      split; [by apply Hai|]. rewrite Hc. clear. set_solver.
    - subst x. exists ∅. rewrite Hs. clear. set_solver. }
  apply list_elem_of_fmap in Hy as (x & -> & Hx). rewrite cells_mark_mines.
  apply elem_of_app in Hx as [Hx|Hx].
  - destruct (Hkn x Hx) as (X0 & H0 & HX).
    by eapply cells_recorded_step.
  - unfold MinesweeperAI.differences in Hx.
    apply list_elem_of_fmap in Hx as (x' & -> & Hx').
    cbn [Sentence.init_set Sentence.cells].
    destruct (Hkn x' Hx') as (X0 & H0 & HX).
    eapply cells_recorded_step; [done..|]. clear -HX. set_solver.
Qed.

(** X13: in every state a new player reaches through [add_knowledge],
    [mark_mine] and [mark_safe], every cell a statement of [knowledge]
    mentions is already recorded in [safes] or in [mines]. *)
Theorem reachable_cells_recorded (h w : Z) (ai : MinesweeperAI.t) :
  reachable h w ai → cells_recorded ai.
Proof.
  induction 1 as [|ai c n _ IH|ai c _ IH|ai c _ IH].
  - intros s Hs. by apply elem_of_nil in Hs.
  - by apply cells_recorded_add_knowledge.
  - intros s (s0 & -> & Hs0)%list_elem_of_fmap. rewrite cells_mark_mine.
    specialize (IH s0 Hs0). cbn. set_solver.
  - intros s (s0 & -> & Hs0)%list_elem_of_fmap. rewrite cells_mark_safe.
    specialize (IH s0 Hs0). cbn. set_solver.
Qed.

Lemma reachable_cells_recorded_witness :
  cells_recorded
    (MinesweeperAI.add_knowledge
       (MinesweeperAI.add_knowledge (MinesweeperAI.init 8 8) (0, 0) 1)
       (5, 5) 1).
Proof.
  apply (reachable_cells_recorded 8 8).
  apply reachable_add_knowledge, reachable_add_knowledge, reachable_init.
Defined.

(** X14: in every such state any two statements of [knowledge] are about
    the same cells or about disjoint cells; so the cells of one statement
    are never a non-empty proper subset of the cells of another. *)
Theorem reachable_same_or_apart (h w : Z) (ai : MinesweeperAI.t) :
  reachable h w ai →
  same_or_apart (MinesweeperAI.knowledge ai)
  ∧ ∀ s1 s2, s1 ∈ MinesweeperAI.knowledge ai →
             s2 ∈ MinesweeperAI.knowledge ai →
             Sentence.cells s1 ⊆ Sentence.cells s2 →
             Sentence.cells s1 = ∅ ∨ Sentence.cells s1 = Sentence.cells s2.
Proof.
  intros Hr.
  assert (H : same_or_apart (MinesweeperAI.knowledge ai)).
  { induction Hr as [|ai c n _ IH|ai c _ IH|ai c _ IH].
    - intros s1 s2 Hs. by apply elem_of_nil in Hs.
    - by apply same_or_apart_add_knowledge.
    - apply (same_or_apart_removal _ {[c]}); [intros s; apply cells_mark_mine|done].
    - apply (same_or_apart_removal _ {[c]}); [intros s; apply cells_mark_safe|done]. }
  split; [done|]. intros s1 s2 H1 H2 Hsub.
  destruct (H s1 s2 H1 H2) as [?|Hd]; [by right|left]. set_solver.
Qed.

Lemma reachable_same_or_apart_witness :
  same_or_apart
    (MinesweeperAI.knowledge
       (MinesweeperAI.add_knowledge
          (MinesweeperAI.add_knowledge (MinesweeperAI.init 8 8) (0, 0) 1)
          (0, 1) 1))
  ∧ ∀ s1 s2,
      s1 ∈ MinesweeperAI.knowledge
             (MinesweeperAI.add_knowledge
                (MinesweeperAI.add_knowledge (MinesweeperAI.init 8 8) (0, 0) 1)
                (0, 1) 1) →
      s2 ∈ MinesweeperAI.knowledge
             (MinesweeperAI.add_knowledge
                (MinesweeperAI.add_knowledge (MinesweeperAI.init 8 8) (0, 0) 1)
                (0, 1) 1) →
      Sentence.cells s1 ⊆ Sentence.cells s2 →
      Sentence.cells s1 = ∅ ∨ Sentence.cells s1 = Sentence.cells s2.
Proof.
  apply (reachable_same_or_apart 8 8).
  apply reachable_add_knowledge, reachable_add_knowledge, reachable_init.
Defined.

(** With two statements always about the same cells or about disjoint
    cells, the subset rule of the specification has nothing to add. *)
Lemma spec_subset_candidates_apart (kn : list Sentence.t) :
  same_or_apart kn → spec_subset_candidates kn = [].
Proof.
  intros H. unfold spec_subset_candidates.
  assert (Hnil : ∀ (f : Sentence.t → list Sentence.t) (l : list Sentence.t),
             (∀ x, x ∈ l → f x = []) → l ≫= f = []).
  { intros f l. induction l as [|x l IH]; [done|]. intros Hl.
    cbn. rewrite Hl by left. rewrite IH; [done|].
    intros y Hy. apply Hl. by right. }
  apply Hnil. intros a Ha. apply Hnil. intros b Hb. cbv zeta.
  case_bool_decide as Hc; [|done]. exfalso.
  destruct Hc as (_ & Hne & Hsub & Hcne & _).
  cbn [Sentence.init_set Sentence.cells] in Hcne.
  destruct (H a b Ha Hb) as [Heq|Hd].
  - apply Hcne. rewrite Heq. set_solver.
  - apply Hne. set_solver.
Qed.

(** Measured with [known_safes] as the code has it, every state
    [add_knowledge] returns from a reachable state is [saturated]: the
    certain cells a further round would miss are those only
    [spec_known_safes] finds. *)
Lemma reachable_add_knowledge_saturated (h w : Z) (ai : MinesweeperAI.t)
    (c : cell) (n : Z) :
  reachable h w ai → saturated (MinesweeperAI.add_knowledge ai c n).
Proof.
  intros Hr. split; [|split].
  - unfold MinesweeperAI.add_knowledge.
    rewrite gather_known_mines_conclude.
    intros x Hx. by apply elem_of_nil in Hx.
  - rewrite gather_known_safes. intros x Hx. by apply elem_of_nil in Hx.
  - apply spec_subset_candidates_apart, same_or_apart_add_knowledge.
    induction Hr as [|ai c' n' _ IH|ai c' _ IH|ai c' _ IH].
    + intros s1 s2 Hs. by apply elem_of_nil in Hs.
    + by apply same_or_apart_add_knowledge.
    + apply (same_or_apart_removal _ {[c']});
        [intros s; apply cells_mark_mine|done].
    + apply (same_or_apart_removal _ {[c']});
        [intros s; apply cells_mark_safe|done].
Qed.

(** ** The board's count *)

Lemma foldl_count {A} (test : A → bool) (l : list A) (a : Z) :
  foldl (fun cnt x => if test x then cnt + 1 else cnt) a l
  = a + Z.of_nat (length (filter (fun x => test x = true) l)).
Proof.
  revert a. induction l as [|x l IH]; intros a; cbn [foldl].
  - cbn. lia.
  - rewrite IH, filter_cons. destruct (test x) eqn:Hx.
    + rewrite decide_True by done. cbn [length]. lia.
    + rewrite decide_False by (by intros ?). lia.
Qed.

Lemma foldl_pointwise {A B} (f g : B → A → B) (l : list A) (a : B) :
  (∀ acc x, f acc x = g acc x) → foldl f a l = foldl g a l.
Proof.
  intros Hfg. revert a. induction l as [|x l IH]; intros a; [done|].
  cbn. by rewrite Hfg, IH.
Qed.

Lemma foldl_rows {A B C} (f : C → A * B → C) (rows : list A) (cols : list B) (a : C) :
  foldl (fun acc i => foldl (fun acc j => f acc (i, j)) acc cols) a rows
  = foldl f a (i ← rows; j ← cols; [(i, j)]).
Proof.
  revert a. induction rows as [|i rows IH]; intros a; [done|].
  cbn [foldl mbind list_bind]. rewrite foldl_app, <- IH. f_equal.
  clear. revert a. induction cols as [|j cols IH]; intros a; [done|].
  cbn. apply IH.
Qed.

Lemma nearby_mines_length (b : Minesweeper.t) (c : cell) :
  Minesweeper.nearby_mines b c
  = Z.of_nat (length (filter
      (fun p => bool_decide
                  (p ≠ c
                   ∧ in_board (Minesweeper.height b) (Minesweeper.width b) p
                   ∧ p ∈ Minesweeper.mines b) = true)
      (square c))).
Proof.
  unfold Minesweeper.nearby_mines, square.
  etransitivity;
    [exact (foldl_rows (fun cnt p =>
       if bool_decide (p = c) then cnt
       else if bool_decide (0 <= p.1 < Minesweeper.height b
                            ∧ 0 <= p.2 < Minesweeper.width b)
            then (if Minesweeper.is_mine b p then cnt + 1 else cnt)
            else cnt) _ _ _)|].
  rewrite <- (Z.add_0_l (Z.of_nat _)), <- foldl_count.
  apply foldl_pointwise. intros cnt p. unfold Minesweeper.is_mine, in_board.
  repeat case_bool_decide; try done; naive_solver.
Qed.

Lemma square_cells (r k : Z) :
  square (r, k)
  = [(r - 1, k - 1); (r - 1, k); (r - 1, k + 1);
     (r, k - 1); (r, k); (r, k + 1);
     (r + 1, k - 1); (r + 1, k); (r + 1, k + 1)].
Proof.
  unfold square, seqZ. change (Z.to_nat 3) with 3%nat. cbn.
  repeat (f_equal; try lia).
Qed.

Lemma NoDup_square (c : cell) : NoDup (square c).
Proof.
  destruct c as [r k]. rewrite square_cells.
  repeat (apply NoDup_cons; split;
          [rewrite ?elem_of_cons, elem_of_nil;
           intros H; repeat (destruct H as [H|H]); try done;
           injection H; lia|]).
  apply NoDup_nil_2.
Qed.

Lemma grid_neighbours_mines (b : Minesweeper.t) (c : cell) :
  list_to_set (filter
      (fun p => bool_decide
                  (p ≠ c
                   ∧ in_board (Minesweeper.height b) (Minesweeper.width b) p
                   ∧ p ∈ Minesweeper.mines b) = true)
      (square c))
  = grid_neighbours (Minesweeper.height b) (Minesweeper.width b) c
    ∩ Minesweeper.mines b.
Proof.
  apply set_eq. intros p. unfold grid_neighbours. fold (square c).
  rewrite elem_of_intersection, !elem_of_list_to_set, !list_elem_of_filter.
  rewrite bool_decide_eq_true. tauto.
Qed.

Lemma nearby_mines_size (b : Minesweeper.t) (c : cell) :
  Minesweeper.nearby_mines b c
  = Z.of_nat (size (grid_neighbours (Minesweeper.height b)
                                    (Minesweeper.width b) c
                    ∩ Minesweeper.mines b)).
Proof.
  rewrite nearby_mines_length, <- grid_neighbours_mines.
  rewrite size_list_to_set; [done|]. apply NoDup_filter, NoDup_square.
Qed.

Lemma size_grid_neighbours (h w : Z) (c : cell) :
  (size (grid_neighbours h w c) ≤ 8)%nat.
Proof.
  transitivity (size ((list_to_set (square c) : gset cell) ∖ {[c]})).
  - apply subseteq_size. intros p. unfold grid_neighbours. fold (square c).
    rewrite elem_of_difference, !elem_of_list_to_set, list_elem_of_filter,
      elem_of_singleton. tauto.
  - rewrite size_difference.
    + rewrite size_list_to_set by apply NoDup_square.
      rewrite size_singleton. destruct c. rewrite square_cells. cbn. lia.
    + apply singleton_subseteq_l, elem_of_list_to_set.
      destruct c as [r k]. rewrite square_cells.
      rewrite !elem_of_cons. tauto.
Qed.

(** X15: [nearby_mines] returns the number of mines among the cells that
    lie within one row and one column of the cell, are not the cell itself
    and are inside the board; the result is between 0 and 8, for any cell,
    inside the board or not. *)
Theorem nearby_mines_counts (b : Minesweeper.t) (c : cell) :
  Minesweeper.nearby_mines b c
  = Z.of_nat (size (grid_neighbours (Minesweeper.height b)
                                    (Minesweeper.width b) c
                    ∩ Minesweeper.mines b))
  ∧ 0 <= Minesweeper.nearby_mines b c <= 8.
Proof.
  split; [apply nearby_mines_size|]. rewrite nearby_mines_size.
  pose proof (size_grid_neighbours (Minesweeper.height b)
                (Minesweeper.width b) c) as H8.
  assert (size (grid_neighbours (Minesweeper.height b) (Minesweeper.width b) c
                ∩ Minesweeper.mines b)
          ≤ size (grid_neighbours (Minesweeper.height b)
                    (Minesweeper.width b) c))%nat
    by (apply subseteq_size, intersection_subseteq_l).
  lia.
Qed.

(** ** The neighbour list on the default board *)

Lemma neighbours_8x8_shape (c : cell) :
  in_board 8 8 c →
  NoDup (MinesweeperAI.neighbours 8 8 c)
  ∧ (c ∉ MinesweeperAI.neighbours 8 8 c)
  ∧ Forall (in_board 8 8) (MinesweeperAI.neighbours 8 8 c).
Proof.
  intros Hc%elem_of_board_cells.
  unfold MinesweeperAI.board_cells in Hc. apply elem_of_list_to_set in Hc.
  revert c Hc. apply Forall_forall.
  apply (bool_decide_unpack _). vm_compute. exact I.
Qed.

(** X16: on the default 8 by 8 board, for every cell of the board, the
    neighbour list of [add_knowledge] holds exactly the cells within one row
    and one column that are inside the board, without the cell itself and
    without repetition. *)
Theorem neighbours_default_board (c : cell) :
  in_board 8 8 c →
  list_to_set (MinesweeperAI.neighbours 8 8 c) = grid_neighbours 8 8 c
  ∧ NoDup (MinesweeperAI.neighbours 8 8 c)
  ∧ (c ∉ MinesweeperAI.neighbours 8 8 c)
  ∧ Forall (in_board 8 8) (MinesweeperAI.neighbours 8 8 c).
Proof.
  intros Hc. split; [by apply neighbours_8x8 | by apply neighbours_8x8_shape].
Qed.

Lemma neighbours_default_board_witness :
  list_to_set (MinesweeperAI.neighbours 8 8 (7, 3)) = grid_neighbours 8 8 (7, 3)
  ∧ NoDup (MinesweeperAI.neighbours 8 8 (7, 3))
  ∧ ((7, 3) ∉ MinesweeperAI.neighbours 8 8 (7, 3))
  ∧ Forall (in_board 8 8) (MinesweeperAI.neighbours 8 8 (7, 3)).
Proof.
  apply (neighbours_default_board (7, 3)). unfold in_board. simpl. lia.
Defined.

(** X17: on the default 8 by 8 board, the statement [add_knowledge] builds
    from the board's answer is true of the board: its count, the value of
    [nearby_mines], is the number of mines among its cells. *)
Theorem new_sentence_true (b : Minesweeper.t) (ai : MinesweeperAI.t)
    (c : cell) :
  Minesweeper.height b = 8 → Minesweeper.width b = 8 →
  MinesweeperAI.height ai = 8 → MinesweeperAI.width ai = 8 →
  in_board 8 8 c →
  let s := MinesweeperAI.new_sentence ai c (Minesweeper.nearby_mines b c) in
  Sentence.count s
  = Z.of_nat (size (Sentence.cells s ∩ Minesweeper.mines b)).
Proof.
  intros Hbh Hbw Hah Haw Hc. cbv zeta.
  unfold MinesweeperAI.new_sentence, Sentence.init.
  cbn [Sentence.cells Sentence.count].
  rewrite Hah, Haw, neighbours_8x8 by done.
  by rewrite nearby_mines_size, Hbh, Hbw.
Qed.

Lemma new_sentence_true_witness :
  let s := MinesweeperAI.new_sentence (MinesweeperAI.init 8 8) (0, 0)
             (Minesweeper.nearby_mines (board8 [(0, 1); (4, 4)]) (0, 0)) in
  Sentence.count s
  = Z.of_nat (size (Sentence.cells s
                    ∩ Minesweeper.mines (board8 [(0, 1); (4, 4)]))).
Proof.
  apply (new_sentence_true (board8 [(0, 1); (4, 4)])
           (MinesweeperAI.init 8 8) (0, 0));
    try reflexivity.
  unfold in_board. simpl. lia.
Defined.

(** ** Moves *)

Lemma make_safe_move_Some (ai : MinesweeperAI.t) (c : cell) :
  (MinesweeperAI.make_safe_move ai).1 = Some c →
  in_board (MinesweeperAI.height ai) (MinesweeperAI.width ai) c
  ∧ c ∈ MinesweeperAI.safes ai
  ∧ c ∉ MinesweeperAI.moves_made ai.
Proof.
  unfold MinesweeperAI.make_safe_move. cbn [fst]. intros Hc.
  pose proof (first_of_range
    (fun i => MinesweeperAI.first_of (fun j =>
       if bool_decide ((i, j) ∉ MinesweeperAI.moves_made ai)
          && bool_decide ((i, j) ∈ MinesweeperAI.safes ai)
       then Some (i, j) else None) (seqZ 0 (MinesweeperAI.width ai)))
    (MinesweeperAI.height ai)) as Hrows.
  rewrite Hc in Hrows. destruct Hrows as (i & Hi & Hrow & _).
  pose proof (first_of_range (fun j =>
       if bool_decide ((i, j) ∉ MinesweeperAI.moves_made ai)
          && bool_decide ((i, j) ∈ MinesweeperAI.safes ai)
       then Some (i, j) else None) (MinesweeperAI.width ai)) as Hcols.
  rewrite Hrow in Hcols. destruct Hcols as (j & Hj & Hcell & _).
  destruct (bool_decide _ && bool_decide _) eqn:E; [|done].
  apply andb_true_iff in E as [E1%bool_decide_eq_true E2%bool_decide_eq_true].
  injection Hcell as <-. unfold in_board. cbn [fst snd].
  split; [lia|]. by split.
Qed.

Lemma play_moves_made (obs : list (cell * Z)) (ai : MinesweeperAI.t) :
  MinesweeperAI.moves_made (play ai obs)
  = list_to_set obs.*1 ∪ MinesweeperAI.moves_made ai.
Proof.
  unfold play. revert ai. induction obs as [|o obs IH]; intros ai; cbn [foldl].
  - cbn. set_solver.
  - rewrite IH.
    destruct (add_knowledge_fields ai o.1 o.2) as (_ & _ & -> & _).
    cbn [fmap list_fmap list_to_set]. set_solver.
Qed.

(** X18: when a cell is left to choose, [make_random_move] returns, for
    every draw, a cell of the board that is neither in [moves_made] nor in
    [mines], and leaves the state as it is. *)
Theorem make_random_move_candidate (draw : nat) (ai : MinesweeperAI.t) :
  MinesweeperAI.candidates ai ≠ ∅ →
  ∃ c, MinesweeperAI.make_random_move draw ai = (inr c, ai)
       ∧ in_board (MinesweeperAI.height ai) (MinesweeperAI.width ai) c
       ∧ (c ∉ MinesweeperAI.moves_made ai)
       ∧ c ∉ MinesweeperAI.mines ai.
Proof.
  intros Hne. destruct (make_random_move_some draw ai Hne) as [c Hc].
  exists c. split.
  - unfold MinesweeperAI.make_random_move in *. cbn [fst] in Hc. by rewrite Hc.
  - by apply (make_random_move_sound draw).
Qed.

Lemma make_random_move_candidate_witness :
  ∃ c, MinesweeperAI.make_random_move 5 (MinesweeperAI.init 8 8)
       = (inr c, MinesweeperAI.init 8 8)
       ∧ in_board (MinesweeperAI.height (MinesweeperAI.init 8 8))
                  (MinesweeperAI.width (MinesweeperAI.init 8 8)) c
       ∧ (c ∉ MinesweeperAI.moves_made (MinesweeperAI.init 8 8))
       ∧ c ∉ MinesweeperAI.mines (MinesweeperAI.init 8 8).
Proof.
  apply (make_random_move_candidate 5 (MinesweeperAI.init 8 8)).
  apply (bool_decide_unpack _). vm_compute. exact I.
Defined.

(** X19: every cell of the board that is neither in [moves_made] nor in
    [mines] is returned by [make_random_move] for some draw. *)
Theorem make_random_move_reaches (ai : MinesweeperAI.t) (c : cell) :
  in_board (MinesweeperAI.height ai) (MinesweeperAI.width ai) c →
  c ∉ MinesweeperAI.moves_made ai →
  c ∉ MinesweeperAI.mines ai →
  ∃ draw, (MinesweeperAI.make_random_move draw ai).1 = inr c.
Proof.
  intros Hb Hmv Hm.
  assert (Hc : c ∈ elements (MinesweeperAI.candidates ai)).
  { apply elem_of_elements. unfold MinesweeperAI.candidates.
    rewrite !elem_of_difference, elem_of_board_cells. done. }
  apply list_elem_of_lookup in Hc as [i Hi]. exists i.
  unfold MinesweeperAI.make_random_move, MinesweeperAI.choice. cbn [fst].
  rewrite Nat.mod_small by (by eapply lookup_lt_Some). by rewrite Hi.
Qed.

Lemma make_random_move_reaches_witness :
  ∃ draw, (MinesweeperAI.make_random_move draw (MinesweeperAI.init 8 8)).1
          = inr (3, 4).
Proof.
  apply (make_random_move_reaches (MinesweeperAI.init 8 8) (3, 4)).
  - unfold in_board. simpl. lia.
  - apply (bool_decide_unpack _). vm_compute. exact I.
  - apply (bool_decide_unpack _). vm_compute. exact I.
Defined.

(** X20: a cell that has been handed to [add_knowledge] is never proposed
    again, neither by [make_safe_move] nor by [make_random_move], whatever
    was observed before or after it. *)
Theorem played_cell_not_proposed (ai : MinesweeperAI.t)
    (obs : list (cell * Z)) (c : cell) (draw : nat) :
  c ∈ obs.*1 →
  (MinesweeperAI.make_safe_move (play ai obs)).1 ≠ Some c
  ∧ (MinesweeperAI.make_random_move draw (play ai obs)).1 ≠ inr c.
Proof.
  intros Hc.
  assert (Hmv : c ∈ MinesweeperAI.moves_made (play ai obs)).
  { rewrite play_moves_made. apply elem_of_union_l.
    by apply elem_of_list_to_set. }
  split.
  - intros (_ & _ & Hn)%make_safe_move_Some. by apply Hn.
  - intros (_ & Hn & _)%make_random_move_sound. by apply Hn.
Qed.

Lemma played_cell_not_proposed_witness :
  (MinesweeperAI.make_safe_move
     (play (MinesweeperAI.init 8 8) [((0, 0), 1); ((5, 5), 1)])).1
  ≠ Some (0, 0)
  ∧ (MinesweeperAI.make_random_move 7
       (play (MinesweeperAI.init 8 8) [((0, 0), 1); ((5, 5), 1)])).1
    ≠ inr (0, 0).
Proof.
  apply (played_cell_not_proposed (MinesweeperAI.init 8 8)
           [((0, 0), 1); ((5, 5), 1)] (0, 0) 7).
  apply (bool_decide_unpack _). vm_compute. exact I.
Defined.

(** ** Laying the mines *)

Lemma empty_board_get (h w : Z) (i j : nat) :
  Placement.get (Placement.empty_board h w) i j
  = if bool_decide ((i < Z.to_nat h)%nat ∧ (j < Z.to_nat w)%nat)
    then Some false else None.
Proof.
  unfold Placement.get, Placement.empty_board.
  rewrite list_lookup_fmap.
  destruct (seqZ 0 h !! i) as [x|] eqn:Hi; cbn.
  - apply lookup_seqZ in Hi as [_ Hi]. rewrite list_lookup_fmap.
    destruct (seqZ 0 w !! j) as [y|] eqn:Hj; cbn.
    + apply lookup_seqZ in Hj as [_ Hj].
      rewrite bool_decide_eq_true_2; [done|lia].
    + rewrite bool_decide_eq_false_2; [done|].
      intros [_ Hj']. rewrite lookup_seqZ_lt in Hj by lia. done.
  - rewrite bool_decide_eq_false_2; [done|].
    intros [Hi' _]. rewrite lookup_seqZ_lt in Hi by lia. done.
Qed.

Lemma board_agrees_empty (h w : Z) :
  board_agrees h w (∅, Placement.empty_board h w).
Proof.
  split; [|split]; cbn [fst snd].
  - intros i j Hi Hj. rewrite empty_board_get.
    rewrite bool_decide_eq_true_2 by done.
    by rewrite (bool_decide_eq_false_2 (_ ∈ ∅)).
  - intros i j H. rewrite empty_board_get in H.
    case_bool_decide; [done|by destruct H].
  - intros c H. by apply elem_of_empty in H.
Qed.

Lemma cell_of_inj (i j i' j' : nat) :
  Placement.cell_of (i, j) = Placement.cell_of (i', j') → i = i' ∧ j = j'.
Proof. unfold Placement.cell_of. cbn. intros [= ? ?]. lia. Qed.

Lemma get_alter (bd : list (list bool)) (i0 j0 i j : nat) :
  is_Some (Placement.get bd i0 j0) →
  Placement.get (alter (<[j0 := true]>) i0 bd) i j
  = if bool_decide (i = i0 ∧ j = j0) then Some true
    else Placement.get bd i j.
Proof.
  unfold Placement.get. intros [v Hv].
  destruct (bd !! i0) as [row|] eqn:Hrow; [|done]. cbn in Hv.
  destruct (decide (i = i0)) as [->|Hi].
  - rewrite list_lookup_alter_eq, Hrow. cbn.
    destruct (decide (j = j0)) as [->|Hj].
    + rewrite bool_decide_eq_true_2 by done.
      apply list_lookup_insert_eq. by eapply lookup_lt_Some.
    + rewrite bool_decide_eq_false_2 by tauto.
      by rewrite list_lookup_insert_ne.
  - rewrite bool_decide_eq_false_2 by tauto.
    by rewrite list_lookup_alter_ne.
Qed.

Lemma place_agrees (h w : Z) (d : nat * nat)
    (st st' : gset cell * list (list bool)) :
  board_agrees h w st →
  Placement.place h w d st = inr st' →
  board_agrees h w st'
  ∧ (st' = st
     ∨ (Placement.cell_of d ∉ st.1)
       ∧ st'.1 = {[Placement.cell_of d]} ∪ st.1).
Proof.
  intros (Hget & Hdim & Hin). unfold Placement.place.
  case_bool_decide as Hh; [done|]. case_bool_decide as Hw; [done|].
  destruct (Placement.get st.2 d.1 d.2) as [[|]|] eqn:Hd; [| |done].
  { intros [= <-]. split; [done|by left]. }
  intros [= <-]. destruct d as [i0 j0]. cbn [fst snd] in *.
  destruct (Hdim i0 j0) as [Hi0 Hj0]; [by rewrite Hd|].
  assert (Hnew : Placement.cell_of (i0, j0) ∉ st.1).
  { specialize (Hget i0 j0 Hi0 Hj0). rewrite Hd in Hget.
    injection Hget as Hget. symmetry in Hget.
    by apply bool_decide_eq_false in Hget. }
  split; [|by right]. split; [|split]; cbn [fst snd].
  - intros i j Hi Hj. rewrite get_alter by (by rewrite Hd).
    rewrite (Hget i j Hi Hj). case_bool_decide as Hij.
    + destruct Hij as [-> ->]. f_equal. symmetry.
      apply bool_decide_eq_true_2. set_solver.
    + f_equal. apply bool_decide_ext. rewrite elem_of_union, elem_of_singleton.
      split; [tauto|]. intros [Heq%cell_of_inj|?]; [tauto|done].
  - intros i j. rewrite get_alter by (by rewrite Hd).
    case_bool_decide as Hij; [by destruct Hij as [-> ->]|apply Hdim].
  - intros c [->%elem_of_singleton|Hc]%elem_of_union; [|by apply Hin].
    unfold in_board, Placement.cell_of. cbn. lia.
Qed.

Lemma size_list_to_set_le (l : list cell) :
  (size (list_to_set l : gset cell) ≤ length l)%nat.
Proof.
  induction l as [|x l IH]; cbn [list_to_set length].
  - by rewrite size_empty.
  - rewrite size_union_alt, size_singleton.
    assert (size (list_to_set l ∖ {[x]} : gset cell)
            ≤ size (list_to_set l : gset cell))%nat
      by (apply subseteq_size; set_solver).
    lia.
Qed.

Lemma length_bind_const {A B} (f : A → list B) (l : list A) (m : nat) :
  (∀ x, length (f x) = m) → length (l ≫= f) = (length l * m)%nat.
Proof.
  intros Hf. induction l as [|x l IH]; [done|].
  rewrite bind_cons, length_app, Hf, IH. cbn. lia.
Qed.

Lemma size_board_cells (h w : Z) :
  (size (MinesweeperAI.board_cells h w) ≤ Z.to_nat h * Z.to_nat w)%nat.
Proof.
  unfold MinesweeperAI.board_cells.
  etransitivity; [apply size_list_to_set_le|].
  rewrite (length_bind_const _ _ (Z.to_nat w)), length_seqZ; [done|].
  intros i. rewrite (length_bind_const _ _ 1), length_seqZ; [lia|done].
Qed.

Lemma loop_returned (h w target : Z) (draws : list (nat * nat))
    (st : gset cell * list (list bool)) (b : Placement.t) :
  board_agrees h w st →
  Placement.loop h w target draws st = Placement.Returned b →
  board_agrees h w (Minesweeper.mines (Placement.game b), Placement.board b)
  ∧ Z.of_nat (size (Minesweeper.mines (Placement.game b))) = target
  ∧ Minesweeper.height (Placement.game b) = h
  ∧ Minesweeper.width (Placement.game b) = w
  ∧ Minesweeper.mines_found (Placement.game b) = ∅.
Proof.
  revert st. induction draws as [|d draws IH]; intros st Hst; cbn [Placement.loop].
  - case_bool_decide as Hsz; [|done]. intros [= <-]. cbn. by destruct st.
  - case_bool_decide as Hsz; [intros [= <-]; cbn; by destruct st|].
    destruct (Placement.place h w d st) as [e|st'] eqn:Hp; [done|].
    apply IH. by destruct (place_agrees h w d st st' Hst Hp).
Qed.

(** X21: when the constructor returns, it has placed exactly the number of
    mines asked for, all inside the board; [board[i][j]] is [True] exactly
    for the cells of [mines], so [is_mine] answers from either; and
    [mines_found] is empty. *)
Theorem init_returned (h w target : Z) (draws : list (nat * nat))
    (b : Placement.t) :
  Placement.init h w target draws = Placement.Returned b →
  Minesweeper.height (Placement.game b) = h
  ∧ Minesweeper.width (Placement.game b) = w
  ∧ Minesweeper.mines_found (Placement.game b) = ∅
  ∧ Z.of_nat (size (Minesweeper.mines (Placement.game b))) = target
  ∧ (∀ c, c ∈ Minesweeper.mines (Placement.game b) → in_board h w c)
  ∧ ∀ i j : nat,
      Z.of_nat i < h → Z.of_nat j < w →
      Placement.get (Placement.board b) i j
      = Some (Minesweeper.is_mine (Placement.game b)
                (Placement.cell_of (i, j))).
Proof.
  intros Hb. unfold Placement.init in Hb.
  destruct (loop_returned _ _ _ _ _ _ (board_agrees_empty h w) Hb)
    as ((Hget & _ & Hin) & Hsz & Hh & Hw & Hf).
  do 4 (split; [done|]). split; [exact Hin|].
  intros i j Hi Hj. apply Hget; lia.
Qed.

Lemma init_returned_witness :
  let b := {| Placement.game := board8 [(0, 1); (4, 4)];
              Placement.board :=
                alter (<[4%nat := true]>) 4%nat
                  (alter (<[1%nat := true]>) 0%nat
                     (Placement.empty_board 8 8)) |} in
  Minesweeper.height (Placement.game b) = 8
  ∧ Minesweeper.width (Placement.game b) = 8
  ∧ Minesweeper.mines_found (Placement.game b) = ∅
  ∧ Z.of_nat (size (Minesweeper.mines (Placement.game b))) = 2
  ∧ (∀ c, c ∈ Minesweeper.mines (Placement.game b) → in_board 8 8 c)
  ∧ ∀ i j : nat,
      Z.of_nat i < 8 → Z.of_nat j < 8 →
      Placement.get (Placement.board b) i j
      = Some (Minesweeper.is_mine (Placement.game b)
                (Placement.cell_of (i, j))).
Proof.
  apply (init_returned 8 8 2 [(0, 1); (0, 1); (4, 4)]%nat).
  vm_compute. reflexivity.
Defined.

(** X22: the constructor cannot return when asked for a negative number of
    mines or for more mines than the board has cells: whatever the draws,
    the loop goes on or an exception is raised. *)
Theorem init_never_returns (h w target : Z) (draws : list (nat * nat))
    (b : Placement.t) :
  target < 0 ∨ Z.of_nat (Z.to_nat h * Z.to_nat w) < target →
  Placement.init h w target draws ≠ Placement.Returned b.
Proof.
  intros Ht Hb. unfold Placement.init in Hb.
  destruct (loop_returned _ _ _ _ _ _ (board_agrees_empty h w) Hb)
    as ((_ & _ & Hin) & Hsz & _).
  cbn [fst] in Hin.
  assert (size (Minesweeper.mines (Placement.game b))
          ≤ Z.to_nat h * Z.to_nat w)%nat.
  { etransitivity; [|apply size_board_cells]. apply subseteq_size.
    intros c Hc. by apply elem_of_board_cells, Hin. }
  lia.
Qed.

Lemma init_never_returns_witness :
  Placement.init 2 2 5 [(0, 0); (0, 1); (1, 0); (1, 1); (0, 0)]%nat
  ≠ Placement.Returned {| Placement.game := board8 []; Placement.board := [] |}.
Proof.
  apply (init_never_returns 2 2 5). right. vm_compute. reflexivity.
Defined.

Lemma loop_fresh_draws (h w : Z) (draws : list (nat * nat))
    (st : gset cell * list (list bool)) :
  board_agrees h w st →
  NoDup draws →
  (∀ d, d ∈ draws →
        (d.1 < Z.to_nat h)%nat ∧ (d.2 < Z.to_nat w)%nat
        ∧ (Placement.cell_of d ∉ st.1)) →
  ∃ b, Placement.loop h w (Z.of_nat (size st.1 + length draws)) draws st
       = Placement.Returned b.
Proof.
  revert st. induction draws as [|d draws IH]; intros st Hst Hnd Hd;
    cbn [Placement.loop length].
  - rewrite bool_decide_eq_true_2 by (f_equal; lia). by eexists.
  - rewrite bool_decide_eq_false_2 by lia.
    apply NoDup_cons in Hnd as [Hd0 Hnd].
    destruct (Hd d) as (Hi & Hj & Hfresh); [by left|].
    destruct Hst as (Hget & Hdim & Hin).
    assert (Hp : Placement.place h w d st
                 = inr ({[Placement.cell_of d]} ∪ st.1,
                        alter (<[d.2 := true]>) d.1 st.2)).
    { unfold Placement.place.
      rewrite !bool_decide_eq_false_2 by lia.
      destruct d as [i j]. cbn [fst snd] in *.
      rewrite (Hget i j Hi Hj). by rewrite bool_decide_eq_false_2. }
    rewrite Hp.
    destruct (place_agrees h w d st _ (conj Hget (conj Hdim Hin)) Hp)
      as [Hst' _].
    destruct (IH _ Hst' Hnd) as [b Hb].
    + intros d' Hd'. destruct (Hd d') as (Hi' & Hj' & Hfresh'); [by right|].
      do 2 (split; [done|]). cbn [fst].
      rewrite elem_of_union, elem_of_singleton. intros [Heq|?]; [|done].
      destruct d as [i j], d' as [i' j'].
      apply cell_of_inj in Heq as [-> ->]. done.
    + exists b. rewrite <- Hb. f_equal. cbn [fst].
      rewrite size_union by set_solver. rewrite size_singleton. lia.
Qed.

(** X23: for any number of mines from 0 to the number of cells of the
    board there are draws on which the constructor returns. *)
Theorem init_can_return (h w target : Z) :
  0 <= target <= Z.of_nat (Z.to_nat h * Z.to_nat w) →
  ∃ draws b, Placement.init h w target draws = Placement.Returned b.
Proof.
  intros Ht.
  set (all := i ← seq 0 (Z.to_nat h); j ← seq 0 (Z.to_nat w); [(i, j)]).
  assert (Hlen : length all = (Z.to_nat h * Z.to_nat w)%nat).
  { unfold all. rewrite (length_bind_const _ _ (Z.to_nat w)), length_seq; [done|].
    intros i. by rewrite (length_bind_const _ _ 1), length_seq, Nat.mul_1_r. }
  assert (Hnd : NoDup all).
  { unfold all. apply NoDup_bind; [| |apply NoDup_seq].
    - intros i1 i2 [i j] _ _ H1 H2.
      apply list_elem_of_bind in H1 as (j1 & H1 & _).
      apply list_elem_of_bind in H2 as (j2 & H2 & _).
      apply list_elem_of_singleton in H1, H2. congruence.
    - intros i _. apply NoDup_bind; [| |apply NoDup_seq].
      + intros j1 j2 [i' j] _ _ H1 H2.
        apply list_elem_of_singleton in H1, H2. congruence.
      + intros j _. apply NoDup_singleton. }
  assert (Hall : ∀ d, d ∈ all → (d.1 < Z.to_nat h)%nat ∧ (d.2 < Z.to_nat w)%nat).
  { intros d Hd. unfold all in Hd.
    apply list_elem_of_bind in Hd as (i & Hd & Hi).
    apply list_elem_of_bind in Hd as (j & Hd & Hj).
    apply list_elem_of_singleton in Hd as ->.
    apply elem_of_seq in Hi, Hj. cbn. lia. }
  exists (take (Z.to_nat target) all).
  destruct (loop_fresh_draws h w (take (Z.to_nat target) all)
              (∅, Placement.empty_board h w)) as [b Hb].
  - apply board_agrees_empty.
  - apply (sublist_NoDup _ all); [done|apply sublist_take].
  - intros d Hd%subseteq_take. destruct (Hall d Hd). cbn [fst].
    do 2 (split; [done|]). apply not_elem_of_empty.
  - exists b. unfold Placement.init. rewrite <- Hb. f_equal. cbn [fst].
    rewrite size_empty, length_take_le by lia. lia.
Qed.

Lemma init_can_return_witness :
  ∃ draws b, Placement.init 8 8 8 draws = Placement.Returned b.
Proof. apply (init_can_return 8 8 8). vm_compute. split; discriminate. Defined.

(** ** Showing the board *)

Lemma lookup_bind_const {A B} (f : A → list B) (m : nat) (l : list A)
    (i k : nat) (x : A) :
  (∀ y, length (f y) = m) →
  l !! i = Some x → (k < m)%nat →
  (l ≫= f) !! (i * m + k)%nat = f x !! k.
Proof.
  intros Hf. revert i. induction l as [|y l IH]; intros i Hi Hk; [done|].
  rewrite bind_cons. destruct i as [|i]; cbn in Hi.
  - injection Hi as ->. cbn. apply lookup_app_l. by rewrite Hf.
  - rewrite lookup_app_r by (rewrite Hf; lia). rewrite Hf.
    replace (S i * m + k - m)%nat with (i * m + k)%nat by lia. by apply IH.
Qed.

Lemma length_rule (w : Z) :
  length (Printing.rule w) = (2 * Z.to_nat w + 1)%nat.
Proof.
  unfold Printing.rule.
  rewrite length_app, (length_bind_const _ _ 2), length_replicate by done.
  cbn. lia.
Qed.

Lemma length_row (b : Minesweeper.t) (i : Z) :
  length (Printing.row b i) = (2 * Z.to_nat (Minesweeper.width b) + 1)%nat.
Proof.
  unfold Printing.row.
  rewrite length_app, (length_bind_const _ _ 2), length_seqZ; [cbn; lia|].
  intros j. by destruct (Minesweeper.is_mine b (i, j)).
Qed.

(** X24: [print] writes [2 * height + 1] lines of [2 * width + 1]
    characters each; the line of row [i] is line [2 * i + 1], and in it the
    character at [2 * j + 1] is [X] when the cell [(i, j)] is a mine and a
    blank when it is not, with a bar before it. *)
Theorem print_layout (b : Minesweeper.t) :
  length (Printing.print b) = (2 * Z.to_nat (Minesweeper.height b) + 1)%nat
  ∧ Forall (fun line => length line
                        = (2 * Z.to_nat (Minesweeper.width b) + 1)%nat)
           (Printing.print b)
  ∧ ∀ i j : nat,
      Z.of_nat i < Minesweeper.height b →
      Z.of_nat j < Minesweeper.width b →
      ∃ line,
        Printing.print b !! (2 * i + 1)%nat = Some line
        ∧ line !! (2 * j)%nat = Some "|"%char
        ∧ line !! (2 * j + 1)%nat
          = Some (if Minesweeper.is_mine b (Z.of_nat i, Z.of_nat j)
                  then "X"%char else " "%char).
Proof.
  split; [|split].
  - unfold Printing.print.
    rewrite length_app, (length_bind_const _ _ 2), length_seqZ by done.
    cbn. lia.
  - unfold Printing.print. apply Forall_app. split.
    + apply Forall_forall. intros line (i & Hl & _)%list_elem_of_bind.
      apply elem_of_cons in Hl as [->|Hl]; [apply length_rule|].
      apply list_elem_of_singleton in Hl as ->. apply length_row.
    + apply Forall_singleton, length_rule.
  - intros i j Hi Hj. exists (Printing.row b (Z.of_nat i)). split; [|split].
    + unfold Printing.print. rewrite lookup_app_l.
      * rewrite (Nat.mul_comm 2 i).
        rewrite (lookup_bind_const _ 2 _ i 1 (Z.of_nat i)); [done|done| |lia].
        rewrite lookup_seqZ_lt by lia. f_equal; lia.
      * rewrite (length_bind_const _ _ 2), length_seqZ by done. lia.
    + unfold Printing.row. rewrite lookup_app_l.
      * rewrite (Nat.mul_comm 2 j), <- (Nat.add_0_r (j * 2)).
        rewrite (lookup_bind_const _ 2 _ j 0 (Z.of_nat j)).
        -- by destruct (Minesweeper.is_mine _ _).
        -- intros y. by destruct (Minesweeper.is_mine _ _).
        -- rewrite lookup_seqZ_lt by lia. f_equal; lia.
        -- lia.
      * rewrite (length_bind_const _ _ 2), length_seqZ; [lia|].
        intros y. by destruct (Minesweeper.is_mine _ _).
    + unfold Printing.row. rewrite lookup_app_l.
      * rewrite (Nat.mul_comm 2 j).
        rewrite (lookup_bind_const _ 2 _ j 1 (Z.of_nat j)).
        -- by destruct (Minesweeper.is_mine _ _).
        -- intros y. by destruct (Minesweeper.is_mine _ _).
        -- rewrite lookup_seqZ_lt by lia. f_equal; lia.
        -- lia.
      * rewrite (length_bind_const _ _ 2), length_seqZ; [lia|].
        intros y. by destruct (Minesweeper.is_mine _ _).
Qed.

Example print_example :
  Printing.print {| Minesweeper.height := 2; Minesweeper.width := 2;
                    Minesweeper.mines := {[ (0, 1) ]};
                    Minesweeper.mines_found := ∅ |}
  = [["-"; "-"; "-"; "-"; "-"]; ["|"; " "; "|"; "X"; "|"];
     ["-"; "-"; "-"; "-"; "-"]; ["|"; " "; "|"; " "; "|"];
     ["-"; "-"; "-"; "-"; "-"]]%char.
Proof. vm_compute. reflexivity. Qed.

(** ** What the statements say *)

Lemma size_inter_remove (X M : gset cell) (c : cell) :
  c ∈ X →
  size (X ∩ M)
  = ((if bool_decide (c ∈ M) then 1 else 0) + size ((X ∖ {[c]}) ∩ M))%nat.
Proof.
  intros Hc. case_bool_decide as HM.
  - rewrite (size_remove (X ∩ M) c) by (by apply elem_of_intersection).
    cbn. do 2 f_equal. apply set_eq. intros x.
    rewrite !elem_of_intersection, !elem_of_difference, elem_of_intersection.
    tauto.
  - cbn. f_equal. apply set_eq. intros x.
    rewrite !elem_of_intersection, elem_of_difference, elem_of_singleton.
    split; [|tauto]. intros [Hx Hm]. repeat split; try done. by intros ->.
Qed.

(** X25: on a statement that is true of a layout of mines and holds the
    cell, [mark_mine] gives a true statement exactly when the cell is a
    mine of the layout, and [mark_safe] exactly when it is not. *)
Theorem marks_keep_truth (M : gset cell) (s : Sentence.t) (c : cell) :
  holds M s →
  c ∈ Sentence.cells s →
  (holds M (Sentence.mark_mine s c) ↔ c ∈ M)
  ∧ (holds M (Sentence.mark_safe s c) ↔ c ∉ M).
Proof.
  unfold holds, Sentence.mark_mine, Sentence.mark_safe. intros Hs Hc.
  rewrite !bool_decide_eq_true_2 by done.
  cbn [Sentence.cells Sentence.count].
  rewrite (size_inter_remove _ M c Hc) in Hs.
  case_bool_decide as HM; split; split; try done; lia.
Qed.

Lemma marks_keep_truth_witness :
  (holds {[ (0, 1) ]}
     (Sentence.mark_mine (Sentence.init [(0, 1); (1, 0); (1, 1)] 1) (0, 1))
   ↔ (0, 1) ∈ ({[ (0, 1) ]} : gset cell))
  ∧ (holds {[ (0, 1) ]}
       (Sentence.mark_safe (Sentence.init [(0, 1); (1, 0); (1, 1)] 1) (0, 1))
     ↔ (0, 1) ∉ ({[ (0, 1) ]} : gset cell)).
Proof.
  apply (marks_keep_truth {[ (0, 1) ]}
           (Sentence.init [(0, 1); (1, 0); (1, 1)] 1) (0, 1)).
  - vm_compute. reflexivity.
  - apply (bool_decide_unpack _). vm_compute. exact I.
Defined.

(** X26: on a statement that is true of a layout of mines, every cell that
    [known_mines] reports is a mine of the layout. *)
Theorem known_mines_sound (M : gset cell) (s : Sentence.t) (cs : gset cell) :
  holds M s →
  Sentence.known_mines s = Some cs →
  cs ⊆ M.
Proof.
  unfold holds. intros Hs [-> Hk]%known_mines_Some. unfold slack in Hk.
  assert (Heq : Sentence.cells s ∩ M = Sentence.cells s).
  { apply set_subseteq_size_eq; [apply intersection_subseteq_l|lia]. }
  intros x Hx. rewrite <- Heq in Hx. by apply elem_of_intersection in Hx as [_ ?].
Qed.

Lemma known_mines_sound_witness :
  (list_to_set [(0, 1); (1, 0)] : gset cell) ⊆ {[ (0, 1); (1, 0); (4, 4) ]}.
Proof.
  apply (known_mines_sound {[ (0, 1); (1, 0); (4, 4) ]}
           (Sentence.init [(0, 1); (1, 0)] 2));
    vm_compute; reflexivity.
Defined.

(** X27: when two statements are true of a layout of mines and the cells
    of the first are among the cells of the second, the difference that
    [add_knowledge] builds from them is true of the layout as well. *)
Theorem difference_sound (M : gset cell) (a b : Sentence.t) :
  holds M a → holds M b →
  Sentence.cells a ⊆ Sentence.cells b →
  Forall (holds M) (MinesweeperAI.differences [b] a).
Proof.
  unfold holds. intros Ha Hb Hsub. apply Forall_singleton.
  cbn [Sentence.init_set Sentence.cells Sentence.count].
  rewrite Ha, Hb.
  assert (Hsplit : Sentence.cells b ∩ M
                   = (Sentence.cells a ∩ M)
                     ∪ ((Sentence.cells b ∖ Sentence.cells a) ∩ M)).
  { apply set_eq. intros x.
    rewrite elem_of_union, !elem_of_intersection, elem_of_difference.
    split; [|set_solver].
    intros [Hx HM]. destruct (decide (x ∈ Sentence.cells a)); tauto. }
  rewrite Hsplit, size_union; [lia|].
  intros x [Hx _]%elem_of_intersection [[_ Hn]%elem_of_difference _]%elem_of_intersection.
  done.
Qed.

Lemma difference_sound_witness :
  Forall (holds {[ (4, 4); (5, 5) ]})
         (MinesweeperAI.differences [stmt_abcde] stmt_abc).
Proof.
  apply (difference_sound {[ (4, 4); (5, 5) ]} stmt_abc stmt_abcde).
  - vm_compute. reflexivity.
  - vm_compute. reflexivity.
  - apply (bool_decide_unpack _). vm_compute. exact I.
Defined.

(** X28: when a statement is true of a layout of mines and shares no cell
    with the new statement, the difference that [add_knowledge] appends for
    it is true of the layout only if the count of the new statement is 0. *)
Theorem difference_apart (M : gset cell) (x s : Sentence.t) :
  holds M x →
  Sentence.cells x ## Sentence.cells s →
  Forall (holds M) (MinesweeperAI.differences [x] s) ↔ Sentence.count s = 0.
Proof.
  unfold holds. intros Hx Hd.
  unfold MinesweeperAI.differences. cbn [fmap list_fmap].
  rewrite Forall_singleton.
  cbn [Sentence.init_set Sentence.cells Sentence.count].
  replace (Sentence.cells x ∖ Sentence.cells s) with (Sentence.cells x)
    by set_solver.
  lia.
Qed.

Lemma difference_apart_witness :
  Forall (holds {[ (4, 4) ]})
         (MinesweeperAI.differences [stmt_abc]
            (Sentence.init [(0, 1); (1, 0); (1, 1)] 1))
  ↔ Sentence.count (Sentence.init [(0, 1); (1, 0); (1, 1)] 1) = 0.
Proof.
  apply (difference_apart {[ (4, 4) ]} stmt_abc
           (Sentence.init [(0, 1); (1, 0); (1, 1)] 1)).
  - vm_compute. reflexivity.
  - apply (bool_decide_unpack _). vm_compute. exact I.
Defined.

(** ** A run of observations *)

(** X29: on the default 8 by 8 board, whenever the board reports a positive
    count for a cell that the player has not recorded as a mine,
    [add_knowledge] records a mine of the board as safe. *)
Theorem positive_count_marks_mine_safe (b : Minesweeper.t)
    (ai : MinesweeperAI.t) (c : cell) :
  Minesweeper.height b = 8 → Minesweeper.width b = 8 →
  MinesweeperAI.height ai = 8 → MinesweeperAI.width ai = 8 →
  in_board 8 8 c →
  c ∉ MinesweeperAI.mines ai →
  0 < Minesweeper.nearby_mines b c →
  ∃ m, m ∈ Minesweeper.mines b
       ∧ m ∈ MinesweeperAI.safes
               (MinesweeperAI.add_knowledge ai c (Minesweeper.nearby_mines b c)).
Proof.
  intros Hbh Hbw Hah Haw Hc Hnm Hpos.
  rewrite nearby_mines_size, Hbh, Hbw in Hpos.
  destruct (size_pos_elem_of (grid_neighbours 8 8 c ∩ Minesweeper.mines b))
    as [m [Hm1 Hm2]%elem_of_intersection]; [lia|].
  exists m. split; [done|].
  destruct (add_knowledge_fields ai c (Minesweeper.nearby_mines b c))
    as (_ & _ & _ & -> & _).
  rewrite bool_decide_eq_false_2 by done.
  rewrite Hah, Haw, neighbours_8x8 by done.
  by apply elem_of_union_l.
Qed.

Lemma positive_count_marks_mine_safe_witness :
  ∃ m, m ∈ Minesweeper.mines (board8 [(0, 1); (4, 4)])
       ∧ m ∈ MinesweeperAI.safes
               (MinesweeperAI.add_knowledge (MinesweeperAI.init 8 8) (0, 0)
                  (Minesweeper.nearby_mines (board8 [(0, 1); (4, 4)]) (0, 0))).
Proof.
  apply (positive_count_marks_mine_safe (board8 [(0, 1); (4, 4)])
           (MinesweeperAI.init 8 8) (0, 0)); try reflexivity.
  - unfold in_board. simpl. lia.
  - apply (bool_decide_unpack _). vm_compute. exact I.
Defined.

(** X30: along any run of observations nothing is forgotten: [moves_made]
    is the old set with the observed cells, every observed cell is in
    [safes], and [safes] and [mines] only grow. *)
Theorem play_records (ai : MinesweeperAI.t) (obs : list (cell * Z)) :
  MinesweeperAI.moves_made (play ai obs)
  = list_to_set obs.*1 ∪ MinesweeperAI.moves_made ai
  ∧ list_to_set obs.*1 ⊆ MinesweeperAI.safes (play ai obs)
  ∧ MinesweeperAI.safes ai ⊆ MinesweeperAI.safes (play ai obs)
  ∧ MinesweeperAI.mines ai ⊆ MinesweeperAI.mines (play ai obs).
Proof.
  split; [apply play_moves_made|].
  unfold play. revert ai. induction obs as [|o obs IH]; intros ai; cbn [foldl].
  - cbn. set_solver.
  - destruct (IH (MinesweeperAI.add_knowledge ai o.1 o.2)) as (H1 & H2 & H3).
    destruct (add_knowledge_fields ai o.1 o.2) as (_ & _ & _ & Hs & Hm & _).
    set (r := MinesweeperAI.add_knowledge ai o.1 o.2) in *.
    set (p := foldl _ r obs) in *.
    assert (Hs1 : o.1 ∈ MinesweeperAI.safes r ∧ MinesweeperAI.safes ai ⊆ MinesweeperAI.safes r).
    { rewrite Hs. clear. case_bool_decide; set_solver. }
    clear Hs. destruct Hs1 as [Hs1 Hs2]. clearbody p r.
    cbn [fmap list_fmap list_to_set]. split; [|split].
    + intros x [->%elem_of_singleton|Hx]%elem_of_union; [by apply H2|by apply H1].
    + by etransitivity.
    + by etransitivity.
Qed.
